(** * node-mongodb-provider: the AbstractProvider base class and [utils.tick]

    A shallow embedding of the provider's callback code.  JavaScript
    closures are defunctionalised: every function literal of the source is
    a constructor of [func] holding the variables it captures, and [apply]
    gives its body.  The database driver and the callbacks supplied by
    callers are external: the driver is a table of replies indexed by the
    order in which requests are issued, a caller's callback is a table
    telling whether it throws.  The driver completes every request once, on
    a later turn of the event loop, oldest request first.  Everything
    observable is appended to a trace.

    The repository holds three versions of index.js.  The operations are
    those of the latest one (find with options, findOnly, aggregate,
    removeOnly, count, updateOne with options); [ensureIndexes] is that of
    the version that has it; of lib/index.js, the first version,
    [_getCollection] and [find] are embedded as [legacy_getCollection] and
    [legacy_find]. *)

From Stdlib Require Import List String Ascii ZArith Bool Arith Lia.
From Stdlib Require Import DecimalString.
Import ListNotations.
Local Open Scope string_scope.
Local Open Scope list_scope.
Set Warnings "-register-all".

(** JavaScript's [+] on strings. *)
Infix "+++" := String.append (right associativity, at level 60).

(** ** JavaScript values *)

(** The values the provider handles.  Numbers are the integers the driver
    reports (counts); [VColl] is a collection handle handed out by the
    driver; [VError] is [new Error(message)]. *)
Inductive value : Type :=
| VUndefined
| VNull
| VBool (b : bool)
| VNum (n : Z)
| VStr (s : string)
| VArr (items : list value)
| VObj (fields : list (string * value))
| VError (message : string)
| VColl (name : value)
| VFun (f : func)

(** Function values.  [FUser] is a callback written by the caller; the
    others are the function literals of the source. *)
with func : Type :=
| FUser (id : nat)
(* utils.tick: the wrapper [function () { try { callback.apply(this, arguments) } ... }] *)
| FTick (callback : func)
(* utils.tick: [function () { throw err; }] *)
| FRethrow (err : value)
(* index.js, latest variant: the [function (err, collection)] and the
   [function (err, result)] literal of each operation *)
| find_onCollection (conditions projection options callback : value)
| find_onResult (callback : value)
| findOne_onCollection (conditions projection callback : value)
| findOne_onDoc (conditions callback : value)
| findOnly_onCollection (conditions projection callback : value)
| findOnly_onDoc (callback : value)
| aggregate_onCollection (pipeline options callback : value)
| create_onCollection (docs callback : value)
| create_onResult (docs callback : value)
| createOne_onCollection (doc callback : value)
| createOne_onResult (doc callback : value)
| update_onCollection (conditions update callback : value)
| update_onResult (conditions callback : value)
| updateOne_onCollection (conditions update options callback : value)
| updateOne_onResult (conditions callback : value)
| findAndUpdate_onCollection (conditions update callback : value)
| findAndUpdate_onDoc (conditions callback : value)
| remove_onCollection (conditions callback : value)
| remove_onResult (conditions callback : value)
| removeOnly_onCollection (conditions callback : value)
| removeOnly_onResult (callback : value)
| findAndRemove_onCollection (conditions callback : value)
| findAndRemove_onDoc (conditions callback : value)
| count_onCollection (conditions callback : value)
| count_onResult (callback : value)
(* index.js, variant with ensureIndexes: [function (err, collection)] and
   the callback of [collection.ensureIndex] inside [create] *)
| ensureIndexes_onCollection (callback : value)
| ensureIndexes_onCreated (collection callback : value)
(* lib/index.js, first variant: the two literals of [find] *)
| legacy_find_onCollection (conditions callback : value)
| legacy_find_onResult (callback : value).

(** [if (v)] and [!v]. *)
Definition truthy (v : value) : bool :=
  match v with
  | VUndefined | VNull => false
  | VBool b => b
  | VNum n => negb (Z.eqb n 0)
  | VStr s => negb (String.eqb s "")
  | _ => true
  end.

(** [typeof v === 'function'] *)
Definition is_function (v : value) : bool :=
  match v with VFun _ => true | _ => false end.

(** [arguments[n]]: a missing argument reads as [undefined]. *)
Definition arg (n : nat) (args : list value) : value := nth n args VUndefined.

(** [v.length] *)
Definition length_of (v : value) : value :=
  match v with
  | VArr items => VNum (Z.of_nat (List.length items))
  | VStr s => VNum (Z.of_nat (String.length s))
  | _ => VUndefined
  end.

(** [v[0]] for the values [createOne] reads it from. *)
Definition first_of (v : value) : value :=
  match v with
  | VArr items => nth 0 items VUndefined
  | VStr (String c _) => VStr (String c EmptyString)
  | _ => VUndefined
  end.

(** Object literals and property assignment, keeping insertion order. *)
Fixpoint set_field (k : string) (v : value) (fields : list (string * value))
  : list (string * value) :=
  match fields with
  | [] => [(k, v)]
  | (k', v') :: rest =>
      if String.eqb k k' then (k, v) :: rest else (k', v') :: set_field k v rest
  end.

Fixpoint get_field (k : string) (fields : list (string * value)) : option value :=
  match fields with
  | [] => None
  | (k', v') :: rest => if String.eqb k k' then Some v' else get_field k rest
  end.

(** ** JSON.stringify *)

Definition dquote : string := String (ascii_of_nat 34) EmptyString.
Definition backslash : string := String (ascii_of_nat 92) EmptyString.

Definition hex_digit (n : nat) : ascii :=
  ascii_of_nat (if Nat.ltb n 10 then 48 + n else 87 + n).

Definition escape_char (c : ascii) : string :=
  let n := nat_of_ascii c in
  if Nat.eqb n 34 then backslash +++ dquote
  else if Nat.eqb n 92 then backslash +++ backslash
  else if Nat.eqb n 8 then backslash +++ "b"
  else if Nat.eqb n 9 then backslash +++ "t"
  else if Nat.eqb n 10 then backslash +++ "n"
  else if Nat.eqb n 12 then backslash +++ "f"
  else if Nat.eqb n 13 then backslash +++ "r"
  else if Nat.ltb n 32 then
    backslash +++ "u00" +++ String (hex_digit (n / 16)) (String (hex_digit (n mod 16)) EmptyString)
  else String c EmptyString.

Fixpoint escape (s : string) : string :=
  match s with
  | EmptyString => EmptyString
  | String c rest => escape_char c +++ escape rest
  end.

Definition quote (s : string) : string := dquote +++ escape s +++ dquote.

Definition string_of_Z (n : Z) : string := NilZero.string_of_int (Z.to_int n).

(** [JSON.stringify(v)]; [None] is the [undefined] it returns for
    [undefined] and for functions.  Inside an array such a value prints as
    [null], inside an object its property is left out.  Errors and driver
    handles have no enumerable property of their own in this model. *)
Fixpoint JSON_stringify (v : value) : option string :=
  match v with
  | VUndefined | VFun _ => None
  | VNull => Some "null"
  | VBool b => Some (if b then "true" else "false")
  | VNum n => Some (string_of_Z n)
  | VStr s => Some (quote s)
  | VArr items =>
      Some ("[" +++ String.concat ","
              ((fix elements (l : list value) : list string :=
                  match l with
                  | [] => []
                  | x :: rest =>
                      match JSON_stringify x with
                      | Some s => s
                      | None => "null"
                      end :: elements rest
                  end) items) +++ "]")
  | VObj fields =>
      Some ("{" +++ String.concat ","
              ((fix members (l : list (string * value)) : list string :=
                  match l with
                  | [] => []
                  | (k, x) :: rest =>
                      match JSON_stringify x with
                      | Some s => (quote k +++ ":" +++ s) :: members rest
                      | None => members rest
                      end
                  end) fields) +++ "}")
  | VError _ | VColl _ => Some "{}"
  end.

(** ['text' + JSON.stringify(v)]: string concatenation turns [undefined]
    into the text [undefined]. *)
Definition serialized (v : value) : string :=
  match JSON_stringify v with
  | Some s => s
  | None => "undefined"
  end.


(** ** The world: provider instance, driver, scheduler, trace *)

(** The driver methods the provider calls on a collection handle;
    [m_find] is [find(...).toArray(callback)]. *)
Inductive method : Type :=
| m_find | m_findOne | m_aggregate | m_insert | m_update | m_findAndModify
| m_remove | m_findAndRemove | m_count | m_ensureIndex.

Inductive event : Type :=
(* db.collection(name, options, _) was called *)
| EGetCollection (name options : value)
(* collection.m(args, _) was called *)
| ERequest (collection : value) (m : method) (args : list value)
(* a caller's callback was invoked *)
| EInvoke (id : nat) (this : value) (args : list value)
(* a completion callback threw into the driver code that invoked it *)
| EDriverSaw (thrown : value)
(* a process.nextTick task threw: the process-level uncaught error *)
| EUncaught (thrown : value).

(** An index declaration [[keys, options]] of the [indexes] array. *)
Definition index_spec : Type := value * list (string * value).

Record world : Type := mkWorld {
  (* this.collection *)
  collection : value;
  (* this.indexes: [None] when it is not an array (the default null) *)
  indexes : option (list index_spec);
  (* the arguments the driver passes to the completion callback of its
     n-th request, in order of issue *)
  driver : nat -> list value;
  (* a caller's callback: [Some e] when it throws [e] on these arguments *)
  user : nat -> value -> list value -> option value;
  (* number of requests issued so far *)
  issued : nat;
  (* requests whose completion callback the driver has not yet invoked *)
  inflight : list (value * list value);
  (* the process.nextTick queue *)
  ticks : list (value * list value);
  trace : list event
}.

Definition log (e : event) (w : world) : world :=
  let 'mkWorld c ix d u n fl tk tr := w in
  mkWorld c ix d u n fl tk (tr ++ [e]).

Definition set_indexes (l : option (list index_spec)) (w : world) : world :=
  let 'mkWorld c _ d u n fl tk tr := w in
  mkWorld c l d u n fl tk tr.

Definition set_inflight (l : list (value * list value)) (w : world) : world :=
  let 'mkWorld c ix d u n _ tk tr := w in
  mkWorld c ix d u n l tk tr.

Definition set_ticks (l : list (value * list value)) (w : world) : world :=
  let 'mkWorld c ix d u n fl _ tr := w in
  mkWorld c ix d u n fl l tr.

(** A request reaches the driver: it is logged, and its completion
    callback waits with the reply the driver has for it. *)
Definition submit (e : event) (callback : value) (w : world) : world :=
  let 'mkWorld c ix d u n fl tk tr := w in
  mkWorld c ix d u (S n) (fl ++ [(callback, d n)]) tk (tr ++ [e]).

(** ** A state and exception monad *)

Inductive result (A : Type) : Type :=
| Ret (a : A)
| Throw (thrown : value).
Arguments Ret {A} a.
Arguments Throw {A} thrown.

Definition M (A : Type) : Type := world -> result A * world.

Definition ret {A} (a : A) : M A := fun w => (Ret a, w).
Definition throw {A} (e : value) : M A := fun w => (Throw e, w).
Definition bind {A B} (m : M A) (k : A -> M B) : M B :=
  fun w => match m w with
           | (Ret a, w') => k a w'
           | (Throw e, w') => (Throw e, w')
           end.
Definition try_catch {A} (m : M A) (handler : value -> M A) : M A :=
  fun w => match m w with
           | (Ret a, w') => (Ret a, w')
           | (Throw e, w') => handler e w'
           end.
Definition gets {A} (f : world -> A) : M A := fun w => (Ret (f w), w).
Definition modify (f : world -> world) : M unit := fun w => (Ret tt, f w).

Notation "x <- m ;; k" := (bind m (fun x => k))
  (at level 61, m at next level, right associativity).
Notation "m ;;; k" := (bind m (fun _ => k))
  (at level 61, right associativity).

(** The world a computation leaves behind. *)
Definition exec {A} (m : M A) (w : world) : world := snd (m w).

Definition TypeError : value := VError "TypeError".

(** [process.nextTick(f)] *)
Definition schedule (f : value) (w : world) : world :=
  let 'mkWorld c ix d u n fl tk tr := w in
  mkWorld c ix d u n fl (tk ++ [(f, [])]) tr.

Definition nextTick (f : value) : M unit := modify (schedule f).

(** [this.db.collection(name, options, callback)] *)
Definition db_collection (name options callback : value) : M unit :=
  modify (submit (EGetCollection name options) callback).

(** [collection.m(args..., callback)]: only a collection handle has the
    driver's methods. *)
Definition request (collection : value) (m : method) (args : list value)
    (callback : value) : M unit :=
  match collection with
  | VColl _ => modify (submit (ERequest collection m args) callback)
  | _ => throw TypeError
  end.

(** ** lib/utils.js *)

(** [exports.tick] *)
Definition tick (callback : value) : value :=
  match callback with
  | VFun f => VFun (FTick f)
  | _ => VUndefined
  end.

(** Modelled from the spec: [utils.extend], which [updateOne] calls and
    which is in neither version of utils.js.  The spec has the caller's
    options "merged over a default of write-acknowledgement": every
    property of [source] is assigned to [target]. *)
Definition extend (target source : value) : value :=
  match target, source with
  | VObj t, VObj s => VObj (fold_left (fun acc kv => set_field (fst kv) (snd kv) acc) s t)
  | _, _ => target
  end.

(** ** index.js *)

(** [AbstractProvider.prototype._getCollection] (latest variant) *)
Definition _getCollection (callback : value) : M unit :=
  name <- gets collection ;;
  db_collection name (VObj [("w", VNum 1); ("strict", VBool true)]) (tick callback).

(** [AbstractProvider.prototype._getCollection] (lib/index.js) *)
Definition legacy_getCollection (callback : value) : M unit :=
  name <- gets collection ;;
  db_collection name (VObj [("w", VNum 1)]) callback.

(** [indexes.shift()] on the array [this.indexes]: [ensureIndexes] binds
    its local [indexes] to that very array, so the shift is seen through
    [this.indexes]. *)
Definition shift : M (option index_spec) :=
  fun w => match indexes w with
           | Some (index :: rest) => (Ret (Some index), set_indexes (Some rest) w)
           | _ => (Ret None, w)
           end.

Section Bodies.
(** [f(args)] for a value [f], as the bodies below call their callback. *)
Variable call : value -> list value -> M unit.

(** [function done (err) { callback && callback(err); }] *)
Definition done_with (callback err : value) : M unit :=
  if truthy callback then call callback [err] else ret tt.

(** [function create () { ... }] of [ensureIndexes] *)
Definition create_with (collection callback : value) : M unit :=
  index <- shift ;;
  match index with
  | None => done_with callback VUndefined
  | Some (keys, options) =>
      let options := set_field "background" (VBool true) (set_field "w" (VNum 1) options) in
      request collection m_ensureIndex [keys; VObj options]
              (tick (VFun (ensureIndexes_onCreated collection callback)))
  end.
End Bodies.

(** The texts of the synthesized errors. *)
Definition msg_findOne : string := "Не удалось найти документ: ".
Definition msg_create : string := "Не удалось создать документы: ".
Definition msg_createOne : string := "Не удалось создать документ: ".
Definition msg_update : string := "Не удалось обновить документы: ".
Definition msg_updateOne : string := "Не удалось обновить документ: ".
Definition msg_findAndUpdate : string := "Не удалось найти и обновить документ: ".
Definition msg_remove : string := "Не удалось удалить документы: ".
Definition msg_findAndRemove : string := "Не удалось найти и удалить документ:".

(** [new Error(text + JSON.stringify(v))] *)
Definition new_Error (text : string) (v : value) : value :=
  VError (text +++ serialized v).

(** [apply f this args] is [f.apply(this, args)], the body of each function
    literal; [call f args] is the plain call [f(args)], a TypeError when
    [f] is not a function. *)
Fixpoint apply (f : func) (this : value) (args : list value) {struct f} : M unit :=
  let err := arg 0 args in
  match f with
  | FUser id =>
      fun w => (match user w id this args with
                | Some e => Throw e
                | None => Ret tt
                end, log (EInvoke id this args) w)
  | FTick callback =>
      try_catch (apply callback this args)
                (fun err => nextTick (VFun (FRethrow err)))
  | FRethrow err => throw err

  | find_onCollection conditions projection options callback =>
      if truthy err then call callback [err]
      else request (arg 1 args) m_find [conditions; projection; options]
                   (tick (VFun (find_onResult callback)))
  | find_onResult callback =>
      if truthy err then call callback [err]
      else call callback [VNull; arg 1 args]

  | findOne_onCollection conditions projection callback =>
      if truthy err then call callback [err]
      else request (arg 1 args) m_findOne [conditions; projection]
                   (tick (VFun (findOne_onDoc conditions callback)))
  | findOne_onDoc conditions callback =>
      if truthy err then call callback [err]
      else if negb (truthy (arg 1 args))
      then call callback [new_Error msg_findOne conditions]
      else call callback [VNull; arg 1 args]

  | findOnly_onCollection conditions projection callback =>
      if truthy err then call callback [err]
      else request (arg 1 args) m_findOne [conditions; projection]
                   (tick (VFun (findOnly_onDoc callback)))
  | findOnly_onDoc callback =>
      if truthy err then call callback [err]
      else call callback [VNull; arg 1 args]

  | aggregate_onCollection pipeline options callback =>
      if truthy err then call callback [err]
      else request (arg 1 args) m_aggregate [pipeline; options] callback

  | create_onCollection docs callback =>
      if truthy err then call callback [err]
      else request (arg 1 args) m_insert [docs; VObj [("w", VNum 1)]]
                   (tick (VFun (create_onResult docs callback)))
  | create_onResult docs callback =>
      let result := arg 1 args in
      if truthy err then call callback [err]
      else if negb (truthy result) || negb (truthy (length_of result))
      then call callback [new_Error msg_create docs]
      else call callback [VNull; result]

  | createOne_onCollection doc callback =>
      if truthy err then call callback [err]
      else request (arg 1 args) m_insert [doc; VObj [("w", VNum 1)]]
                   (tick (VFun (createOne_onResult doc callback)))
  | createOne_onResult doc callback =>
      let result := arg 1 args in
      if truthy err then call callback [err]
      else if negb (truthy result) || negb (truthy (length_of result))
      then call callback [new_Error msg_createOne doc]
      else call callback [VNull; first_of result]

  | update_onCollection conditions update callback =>
      if truthy err then call callback [err]
      else request (arg 1 args) m_update
                   [conditions; update; VObj [("w", VNum 1); ("multi", VBool true)]]
                   (tick (VFun (update_onResult conditions callback)))
  | update_onResult conditions callback =>
      if truthy err then call callback [err]
      else if negb (truthy (arg 1 args))
      then call callback [new_Error msg_update conditions]
      else call callback [VNull]

  | updateOne_onCollection conditions update options callback =>
      if truthy err then call callback [err]
      else request (arg 1 args) m_update
                   [conditions; update; extend (VObj [("w", VNum 1)]) options]
                   (tick (VFun (updateOne_onResult conditions callback)))
  | updateOne_onResult conditions callback =>
      if truthy err then call callback [err]
      else if negb (truthy (arg 1 args))
      then call callback [new_Error msg_updateOne conditions]
      else call callback [VNull]

  | findAndUpdate_onCollection conditions update callback =>
      if truthy err then call callback [err]
      else request (arg 1 args) m_findAndModify
                   [conditions; VArr []; update; VObj [("new", VBool true); ("w", VNum 1)]]
                   (tick (VFun (findAndUpdate_onDoc conditions callback)))
  | findAndUpdate_onDoc conditions callback =>
      if truthy err then call callback [err]
      else if negb (truthy (arg 1 args))
      then call callback [new_Error msg_findAndUpdate conditions]
      else call callback [VNull; arg 1 args]

  | remove_onCollection conditions callback =>
      if truthy err then call callback [err]
      else request (arg 1 args) m_remove [conditions; VObj [("w", VNum 1)]]
                   (tick (VFun (remove_onResult conditions callback)))
  | remove_onResult conditions callback =>
      if truthy err then call callback [err]
      else if negb (truthy (arg 1 args))
      then call callback [new_Error msg_remove conditions]
      else call callback [VNull]

  | removeOnly_onCollection conditions callback =>
      if truthy err then call callback [err]
      else request (arg 1 args) m_remove [conditions; VObj [("w", VNum 1)]]
                   (tick (VFun (removeOnly_onResult callback)))
  | removeOnly_onResult callback =>
      if truthy err then call callback [err]
      else call callback [VNull; arg 1 args]

  | findAndRemove_onCollection conditions callback =>
      if truthy err then call callback [err]
      else request (arg 1 args) m_findAndRemove
                   [conditions; VArr []; VObj [("w", VNum 1)]]
                   (VFun (findAndRemove_onDoc conditions callback))
  | findAndRemove_onDoc conditions callback =>
      if truthy err then call callback [err]
      else if negb (truthy (arg 1 args))
      then call callback [new_Error msg_findAndRemove conditions]
      else call callback [VNull; arg 1 args]

  | count_onCollection conditions callback =>
      if truthy err then call callback [err]
      else request (arg 1 args) m_count [conditions]
                   (VFun (count_onResult callback))
  | count_onResult callback =>
      if truthy err then call callback [err]
      else call callback [VNull; arg 1 args]

  | ensureIndexes_onCollection callback =>
      if truthy err then done_with call callback err
      else create_with call (arg 1 args) callback
  | ensureIndexes_onCreated collection callback =>
      if truthy err then done_with call callback err
      else create_with call collection callback

  | legacy_find_onCollection conditions callback =>
      if truthy err then call callback [err]
      else request (arg 1 args) m_find [conditions]
                   (VFun (legacy_find_onResult callback))
  | legacy_find_onResult callback =>
      if truthy err then call callback [err]
      else call callback [VNull; arg 1 args]
  end

with call (f : value) (args : list value) {struct f} : M unit :=
  match f with
  | VFun g => apply g VUndefined args
  | _ => throw TypeError
  end.

Definition done : value -> value -> M unit := done_with call.
Definition ensureIndexes_create : value -> value -> M unit := create_with call.

(** *** The public operations (latest variant) *)

Definition find (conditions projection options callback : value) : M unit :=
  let '(callback, projection, options) :=
    if is_function projection then (projection, VObj [], VObj [])
    else (callback, projection, options) in
  let '(callback, options) :=
    if is_function options then (options, VObj []) else (callback, options) in
  _getCollection (VFun (find_onCollection conditions projection options callback)).

Definition findOne (conditions projection callback : value) : M unit :=
  let '(callback, projection) :=
    if is_function projection then (projection, VObj []) else (callback, projection) in
  _getCollection (VFun (findOne_onCollection conditions projection callback)).

Definition findOnly (conditions projection callback : value) : M unit :=
  let '(callback, projection) :=
    if is_function projection then (projection, VObj []) else (callback, projection) in
  _getCollection (VFun (findOnly_onCollection conditions projection callback)).

Definition aggregate (pipeline options callback : value) : M unit :=
  let '(callback, options) :=
    if is_function options then (options, VObj []) else (callback, options) in
  _getCollection (VFun (aggregate_onCollection pipeline options callback)).

Definition create (docs callback : value) : M unit :=
  _getCollection (VFun (create_onCollection docs callback)).

Definition createOne (doc callback : value) : M unit :=
  _getCollection (VFun (createOne_onCollection doc callback)).

Definition update (conditions upd callback : value) : M unit :=
  _getCollection (VFun (update_onCollection conditions upd callback)).

Definition updateOne (conditions upd options callback : value) : M unit :=
  let '(callback, options) :=
    if is_function options then (options, VObj []) else (callback, options) in
  _getCollection (VFun (updateOne_onCollection conditions upd options callback)).

Definition findAndUpdate (conditions upd callback : value) : M unit :=
  _getCollection (VFun (findAndUpdate_onCollection conditions upd callback)).

Definition remove (conditions callback : value) : M unit :=
  _getCollection (VFun (remove_onCollection conditions callback)).

Definition removeOnly (conditions callback : value) : M unit :=
  _getCollection (VFun (removeOnly_onCollection conditions callback)).

Definition findAndRemove (conditions callback : value) : M unit :=
  _getCollection (VFun (findAndRemove_onCollection conditions callback)).

Definition count (conditions callback : value) : M unit :=
  _getCollection (VFun (count_onCollection conditions callback)).

(** [AbstractProvider.prototype.ensureIndexes] *)
Definition ensureIndexes (callback : value) : M unit :=
  this_indexes <- gets indexes ;;
  let indexes := match this_indexes with Some l => l | None => [] end in
  if Nat.eqb (List.length indexes) 0
  then (if truthy callback then nextTick callback else ret tt)
  else _getCollection (VFun (ensureIndexes_onCollection callback)).

(** [AbstractProvider.prototype.find] of lib/index.js *)
Definition legacy_find (conditions callback : value) : M unit :=
  legacy_getCollection (VFun (legacy_find_onCollection conditions callback)).

(** A call of a public operation of the latest variant, with the
    arguments before the callback. *)
Inductive operation : Type :=
| Find (conditions projection options : value)
| FindOne (conditions projection : value)
| FindOnly (conditions projection : value)
| Aggregate (pipeline options : value)
| Create (docs : value)
| CreateOne (doc : value)
| Update (conditions upd : value)
| UpdateOne (conditions upd options : value)
| FindAndUpdate (conditions upd : value)
| Remove (conditions : value)
| RemoveOnly (conditions : value)
| FindAndRemove (conditions : value)
| Count (conditions : value).

Definition perform (o : operation) (callback : value) : M unit :=
  match o with
  | Find c p opts => find c p opts callback
  | FindOne c p => findOne c p callback
  | FindOnly c p => findOnly c p callback
  | Aggregate p opts => aggregate p opts callback
  | Create docs => create docs callback
  | CreateOne doc => createOne doc callback
  | Update c u => update c u callback
  | UpdateOne c u opts => updateOne c u opts callback
  | FindAndUpdate c u => findAndUpdate c u callback
  | Remove c => remove c callback
  | RemoveOnly c => removeOnly c callback
  | FindAndRemove c => findAndRemove c callback
  | Count c => count c callback
  end.

(** The optional arguments are given (none of them is the callback). *)
Definition full_form (o : operation) : bool :=
  match o with
  | Find _ p opts => negb (is_function p) && negb (is_function opts)
  | FindOne _ p | FindOnly _ p => negb (is_function p)
  | Aggregate _ opts | UpdateOne _ _ opts => negb (is_function opts)
  | _ => true
  end.

(** ** The event loop *)

(** One turn.  The process.nextTick queue runs first; an exception leaving
    a task is the process-level uncaught error.  Otherwise the driver
    completes its oldest request: it invokes the completion callback, when
    there is one, with its reply, and an exception leaving the callback
    lands in the driver's own frames. *)
Definition turn (w : world) : option world :=
  match ticks w with
  | (f, args) :: rest =>
      Some (match call f args (set_ticks rest w) with
            | (Ret _, w') => w'
            | (Throw e, w') => log (EUncaught e) w'
            end)
  | [] =>
      match inflight w with
      | (VFun f, reply) :: rest =>
          Some (match apply f VUndefined reply (set_inflight rest w) with
                | (Ret _, w') => w'
                | (Throw e, w') => log (EDriverSaw e) w'
                end)
      | (_, _) :: rest => Some (set_inflight rest w)
      | [] => None
      end
  end.

Fixpoint run (fuel : nat) (w : world) : world :=
  match fuel with
  | 0 => w
  | S n => match turn w with
           | Some w' => run n w'
           | None => w
           end
  end.

(** Nothing is scheduled and no request is outstanding. *)
Definition idle (w : world) : Prop := ticks w = [] /\ inflight w = [].

(** [w] runs to [w'], where the event loop has nothing left to do. *)
Definition completes (w w' : world) : Prop :=
  exists fuel, run fuel w = w' /\ turn w' = None.

(** The argument lists with which callback [id] was invoked, in order. *)
Fixpoint calls_of (id : nat) (tr : list event) : list (list value) :=
  match tr with
  | [] => []
  | EInvoke id' _ args :: rest =>
      if Nat.eqb id id' then args :: calls_of id rest else calls_of id rest
  | _ :: rest => calls_of id rest
  end.

(** The requests that reached the driver, in order. *)
Definition is_driver_event (e : event) : bool :=
  match e with
  | EGetCollection _ _ | ERequest _ _ _ => true
  | _ => false
  end.

Definition requests_of (tr : list event) : list event := filter is_driver_event tr.

Definition is_driver_saw (e : event) : bool :=
  match e with EDriverSaw _ => true | _ => false end.

(** ** Vocabulary of the statements *)

(** The provider is called in a world where nothing is pending, and the
    driver answers the collection request with no error and a handle. *)
Definition acquired (w : world) (h : value) : Prop :=
  idle w /\
  truthy (arg 0 (driver w (issued w))) = false /\
  arg 1 (driver w (issued w)) = VColl h.

(** The driver answers the collection request with an error or with a
    handle. *)
Definition acquisition_answered (w : world) : Prop :=
  truthy (arg 0 (driver w (issued w))) = true \/
  exists h, arg 1 (driver w (issued w)) = VColl h.

(** The driver's reply to the request that follows the collection request:
    the operation's own request. *)
Definition answer (w : world) : list value := driver w (S (issued w)).

(** Calling [m] in [w] runs to completion, and callback [id] is invoked
    exactly once in the course of it, with [args]. *)
Definition delivers (w : world) (m : M unit) (id : nat) (args : list value) : Prop :=
  exists w', completes (exec m w) w' /\
             calls_of id (trace w') = calls_of id (trace w) ++ [args].

(** A driver that hands out the collection and then reports three
    documents, and callbacks that throw. *)
Definition throwing_world : world :=
  mkWorld (VStr "users") None
          (fun n => match n with
                    | 0 => [VNull; VColl (VStr "users")]
                    | _ => [VNull; VNum 3]
                    end)
          (fun _ _ _ => Some (VStr "boom")) 0 [] [] [].

(** The request [create] makes for an index declaration. *)
Definition ensure_request (h : value) (index : index_spec) : event :=
  ERequest (VColl h) m_ensureIndex
           [fst index;
            VObj (set_field "background" (VBool true)
                            (set_field "w" (VNum 1) (snd index)))].

(** What the process sees of an exception thrown by the callback. *)
Definition uncaught (thrown : option value) : list event :=
  match thrown with
  | Some e => [EUncaught e]
  | None => []
  end.

(** The world while [create] waits for the driver: one ensureIndex request
    is outstanding, whose reply is the driver's [k]-th. *)
Definition creating (c h : value) (specs : list index_spec) (d : nat -> list value)
    (u : nat -> value -> list value -> option value) (k : nat) (id : nat)
    (tr : list event) : world :=
  mkWorld c (Some specs) d u (S k)
          [(VFun (FTick (ensureIndexes_onCreated (VColl h) (VFun (FUser id)))), d k)]
          [] tr.

(** Two declarations, a driver that never fails, a callback that returns. *)
Definition two_indexes : list index_spec :=
  [(VObj [("email", VNum 1)], [("unique", VBool true)]);
   (VObj [("name", VNum 1)], [])].

Definition indexing_world : world :=
  mkWorld (VStr "users") (Some two_indexes)
          (fun _ => [VNull; VColl (VStr "users")]) (fun _ _ _ => None) 0 [] [] [].

(** The callback was given an error. *)
Definition carries_error (args : list value) : bool := truthy (arg 0 args).

(** The callback was given a result: its second argument is there. *)
Definition carries_result (args : list value) : bool :=
  match arg 1 args with
  | VUndefined => false
  | _ => true
  end.

(** Exactly one of the two. *)
Definition result_envelope (args : list value) : Prop :=
  xorb (carries_error args) (carries_result args) = true.

(** The callback was given an error and nothing else. *)
Definition error_alone (args : list value) : Prop :=
  exists e, truthy e = true /\ args = [e].

(** What the callback is given when an operation that completes the call
    itself succeeds: [null] alone, or [null] and a result. *)
Definition success_shape (o : operation) (args : list value) : Prop :=
  match o with
  | Update _ _ | UpdateOne _ _ _ | Remove _ => args = [VNull]
  | _ => exists v, args = [VNull; v]
  end.

(** A driver that hands out the collection and then reports one document. *)
Definition one_document_world : world :=
  mkWorld (VStr "users") None
          (fun n => match n with
                    | 0 => [VNull; VColl (VStr "users")]
                    | _ => [VNull; VNum 1]
                    end)
          (fun _ _ _ => None) 0 [] [] [].

(** [f] is not a continuation of ensureIndexes, and neither is the
    callback it ends with. *)
Fixpoint no_index_work (f : func) : bool :=
  match f with
  | FUser _ | FRethrow _ => true
  | FTick g => no_index_work g
  | ensureIndexes_onCollection _ | ensureIndexes_onCreated _ _ => false
  | find_onCollection _ _ _ cb | find_onResult cb
  | findOne_onCollection _ _ cb | findOne_onDoc _ cb
  | findOnly_onCollection _ _ cb | findOnly_onDoc cb
  | aggregate_onCollection _ _ cb
  | create_onCollection _ cb | create_onResult _ cb
  | createOne_onCollection _ cb | createOne_onResult _ cb
  | update_onCollection _ _ cb | update_onResult _ cb
  | updateOne_onCollection _ _ _ cb | updateOne_onResult _ cb
  | findAndUpdate_onCollection _ _ cb | findAndUpdate_onDoc _ cb
  | remove_onCollection _ cb | remove_onResult _ cb
  | removeOnly_onCollection _ cb | removeOnly_onResult cb
  | findAndRemove_onCollection _ cb | findAndRemove_onDoc _ cb
  | count_onCollection _ cb | count_onResult cb
  | legacy_find_onCollection _ cb | legacy_find_onResult cb => no_index_work_value cb
  end
with no_index_work_value (v : value) : bool :=
  match v with
  | VFun f => no_index_work f
  | _ => true
  end.

Definition no_index_work_queue (q : list (value * list value)) : Prop :=
  Forall (fun task => no_index_work_value (fst task) = true) q.

(** No call of ensureIndexes is under way. *)
Definition no_index_work_pending (w : world) : Prop :=
  no_index_work_queue (inflight w) /\ no_index_work_queue (ticks w).

(** The instance is the same, and still no ensureIndexes is under way. *)
Definition same_instance (w w' : world) : Prop :=
  collection w' = collection w /\ indexes w' = indexes w /\
  (no_index_work_pending w -> no_index_work_pending w').

Scheme func_value_ind := Induction for func Sort Prop
  with value_func_ind := Induction for value Sort Prop.

(** The functions among the arguments of the call do no index work. *)
Definition plain_arguments (o : operation) : bool :=
  match o with
  | Find _ p opts => no_index_work_value p && no_index_work_value opts
  | FindOne _ p | FindOnly _ p => no_index_work_value p
  | Aggregate _ opts | UpdateOne _ _ opts => no_index_work_value opts
  | _ => true
  end.

(** The operations that wrap their completion callback with [tick]. *)
Definition wraps_callback (o : operation) : bool :=
  match o with
  | Aggregate _ _ | FindAndRemove _ | Count _ => false
  | _ => true
  end.

(** The operation gives the driver the caller's callback itself. *)
Definition hands_over_callback (o : operation) : bool :=
  match o with
  | Aggregate _ _ => true
  | _ => false
  end.

(** The write operations whose driver options are written in the source. *)
Definition fixed_write (o : operation) : bool :=
  match o with
  | Create _ | CreateOne _ | Update _ _ | FindAndUpdate _ _
  | Remove _ | RemoveOnly _ | FindAndRemove _ => true
  | _ => false
  end.

Definition is_uncaught (e : event) : bool :=
  match e with EUncaught _ => true | _ => false end.

(** The world while [create] waits for the driver, for a call of
    ensureIndexes with [callback]. *)
Definition creating_for (callback : value) (c h : value) (specs : list index_spec)
    (d : nat -> list value) (u : nat -> value -> list value -> option value)
    (k : nat) (tr : list event) : world :=
  mkWorld c (Some specs) d u (S k)
          [(VFun (FTick (ensureIndexes_onCreated (VColl h) callback)), d k)]
          [] tr.

(** The request an operation called with all its arguments makes on the
    collection: the driver method and its arguments before the callback. *)
Definition driver_request (o : operation) : method * list value :=
  match o with
  | Find c p opts => (m_find, [c; p; opts])
  | FindOne c p | FindOnly c p => (m_findOne, [c; p])
  | Aggregate p opts => (m_aggregate, [p; opts])
  | Create docs => (m_insert, [docs; VObj [("w", VNum 1)]])
  | CreateOne doc => (m_insert, [doc; VObj [("w", VNum 1)]])
  | Update c u => (m_update, [c; u; VObj [("w", VNum 1); ("multi", VBool true)]])
  | UpdateOne c u opts => (m_update, [c; u; extend (VObj [("w", VNum 1)]) opts])
  | FindAndUpdate c u =>
      (m_findAndModify, [c; VArr []; u; VObj [("new", VBool true); ("w", VNum 1)]])
  | Remove c | RemoveOnly c => (m_remove, [c; VObj [("w", VNum 1)]])
  | FindAndRemove c => (m_findAndRemove, [c; VArr []; VObj [("w", VNum 1)]])
  | Count c => (m_count, [c])
  end.

(** From [w] to [w'] the driver has received what a call of [o] sends it:
    the strict collection request and nothing else when that request is
    answered with an error; otherwise that request and then, once, the
    request of [o] on what the driver returned. *)
Definition requests_as_usual (o : operation) (w w' : world) : Prop :=
  let strict :=
    EGetCollection (collection w) (VObj [("w", VNum 1); ("strict", VBool true)]) in
  (truthy (arg 0 (driver w (issued w))) = true ->
     requests_of (trace w') = requests_of (trace w) ++ [strict]) /\
  (truthy (arg 0 (driver w (issued w))) = false ->
     requests_of (trace w') =
       requests_of (trace w) ++
       [strict;
        ERequest (arg 1 (driver w (issued w)))
                 (fst (driver_request o)) (snd (driver_request o))]).

(** Two declarations, and a driver that rejects the first index it is asked
    to create and accepts everything after. *)
Definition retry_world : world :=
  mkWorld (VStr "users") (Some two_indexes)
          (fun n => match n with
                    | 1 => [VStr "duplicate key"]
                    | _ => [VNull; VColl (VStr "users")]
                    end)
          (fun _ _ _ => None) 0 [] [] [].

(** A driver that hands out the collection and then reports an error
    together with a result. *)
Definition error_with_result_world : world :=
  mkWorld (VStr "users") None
          (fun n => match n with
                    | 0 => [VNull; VColl (VStr "users")]
                    | _ => [VStr "socket closed"; VNum 5]
                    end)
          (fun _ _ _ => None) 0 [] [] [].

(** ** utils.toObjectID *)

Section ToObjectID.

(** What [toObjectID] is given when it is not an array, and the elements
    of the arrays it is given. *)
Variable item : Type.

(** [x instanceof ObjectID] *)
Variable instanceof_ObjectID : item -> bool.

(** [ObjectID(x)], the constructor of the mongodb driver: the instance it
    returns or the exception it throws. *)
Variable ObjectID : item -> item + value.

(** [(x instanceof ObjectID) ? x : ObjectID(x)] *)
Definition to_one (x : item) : item + value :=
  if instanceof_ObjectID x then inl x else ObjectID x.

(** The [for] loop, from the element it is at: the elements as the loop
    leaves them, and the exception that ended it, if any.  An exception
    leaves the element that raised it and the following ones as they were. *)
Fixpoint convert_array (data : list item) : list item * option value :=
  match data with
  | [] => ([], None)
  | x :: rest =>
      match to_one x with
      | inl y => let (rest', thrown) := convert_array rest in (y :: rest', thrown)
      | inr e => (x :: rest, Some e)
      end
  end.

(** The argument: [Array.isArray(data)] or not. *)
Inductive oid_argument : Type :=
| Single (x : item)
| Array (xs : list item).

(** [exports.toObjectID]: the value returned or the exception thrown, and
    the argument as the call leaves it.  An array is converted in place and
    returned; for another value the assignment is to the local variable. *)
Definition toObjectID (data : oid_argument) : (oid_argument + value) * oid_argument :=
  match data with
  | Array xs =>
      let (xs', thrown) := convert_array xs in
      (match thrown with
       | None => inl (Array xs')
       | Some e => inr e
       end, Array xs')
  | Single x =>
      (match to_one x with
       | inl y => inl (Single y)
       | inr e => inr e
       end, Single x)
  end.

End ToObjectID.

(** An instance for examples: numbers stand for ObjectID instances,
    strings for their hexadecimal text; the empty string is not accepted. *)
Definition sample_instanceof (x : nat + string) : bool :=
  match x with inl _ => true | inr _ => false end.

Definition sample_ObjectID (x : nat + string) : (nat + string) + value :=
  match x with
  | inl n => inl (inl n)
  | inr s => if String.eqb s "" then inr (VError "invalid id")
             else inl (inl (String.length s))
  end.

(** ** Basic facts about traces and the event loop *)

Example serialized_name_a :
  serialized (VObj [("name", VStr "a")]) = "{" +++ dquote +++ "name" +++ dquote +++ ":" +++ dquote +++ "a" +++ dquote +++ "}".
Proof. reflexivity. Qed.

Arguments arg : simpl never.
Arguments String.append : simpl never.

Lemma calls_of_app (id : nat) (a b : list event) :
  calls_of id (a ++ b) = calls_of id a ++ calls_of id b.
Proof.
  induction a as [|e a IH]; simpl; [reflexivity|].
  destruct e; try exact IH.
  destruct (Nat.eqb id id0); simpl; congruence.
Qed.

Lemma requests_of_app (a b : list event) :
  requests_of (a ++ b) = requests_of a ++ requests_of b.
Proof. apply filter_app. Qed.

Lemma run_add (a b : nat) (w : world) : run (a + b) w = run b (run a w).
Proof.
  revert w; induction a as [|a IH]; intro w; simpl; [reflexivity|].
  destruct (turn w) as [w'|] eqn:T; [apply IH|].
  destruct b; simpl; [reflexivity | now rewrite T].
Qed.

Lemma run_S (fuel : nat) (w : world) :
  run (S fuel) w = match turn w with
                   | Some w' => run fuel w'
                   | None => w
                   end.
Proof. reflexivity. Qed.

Lemma run_quiet (fuel : nat) (w : world) : turn w = None -> run fuel w = w.
Proof. intro T; destruct fuel; simpl; [reflexivity | now rewrite T]. Qed.

Lemma completes_step (w w1 w' : world) :
  turn w = Some w1 -> completes w1 w' -> completes w w'.
Proof.
  intros T [fuel [R Q]]. exists (S fuel). simpl. rewrite T. now split.
Qed.

Lemma completes_now (w : world) : turn w = None -> completes w w.
Proof. intro T. exists 0. now split. Qed.

(** Once the event loop has drained, more fuel changes nothing. *)
Lemma completes_stable (w w' : world) (fuel : nat) :
  run fuel w = w' -> turn w' = None ->
  forall more, run (fuel + more) w = w'.
Proof. intros R Q more. rewrite run_add, R. now apply run_quiet. Qed.

Lemma completes_intro (fuel : nat) (w1 w' : world) (P : world -> Prop) :
  w' = run fuel w1 ->
  turn w' = None /\ P w' ->
  exists w', completes w1 w' /\ P w'.
Proof.
  intros R [Q C]. exists w'. split; [|exact C].
  exists fuel. split; [now symmetry | exact Q].
Qed.

(** Symbolic evaluation of a run: unfold, and branch on every test that
    depends on the driver's replies or on the caller's callback. *)
Ltac use_replies_in R :=
  match goal with
  | H : arg _ _ = _ |- _ => rewrite H in R
  | H : truthy (arg _ _) = _ |- _ => rewrite H in R
  | H : is_function _ = _ |- _ => rewrite H in R
  end.

Ltac branch_in R :=
  repeat first
    [ progress cbn in R
    | use_replies_in R
    | match type of R with
      | context [if ?b then _ else _] => destruct b eqn:?
      | context [match ?u ?i ?t ?a with Some _ => _ | None => _ end] =>
          destruct (u i t a) eqn:?
      end ].

Ltac open_world w :=
  unfold acquired, acquisition_answered, answer, idle in *;
  destruct w as [coll ix drv usr n infl tks tr]; simpl in *;
  repeat match goal with
         | H : _ /\ _ |- _ => destruct H
         | H : exists _, _ |- _ => destruct H
         end;
  subst.

Ltac use_full_form H :=
  cbn in H;
  repeat match type of H with
         | _ && _ = true => let H' := fresh in apply andb_prop in H; destruct H as [H' H]
         end;
  rewrite ?negb_true_iff in *.

Ltac unfold_operations_in R :=
  unfold exec, perform, find, findOne, findOnly, aggregate, create, createOne,
    update, updateOne, findAndUpdate, remove, removeOnly, findAndRemove, count,
    legacy_find in R.

Ltac close_trace :=
  cbn; rewrite ?calls_of_app, ?requests_of_app, ?filter_app; cbn;
  rewrite ?Nat.eqb_refl; cbn; rewrite ?app_nil_r;
  first [ reflexivity | rewrite <- ?app_assoc; try reflexivity ].

(** Proves [exists w', completes (exec m w) w' /\ P w'] by running the event
    loop [fuel] turns and looking at the world it stops in. *)
Ltac run_to_end fuel :=
  unfold delivers;
  lazymatch goal with
  | |- exists w', completes ?w1 w' /\ @?P w' =>
      let w' := fresh "w'" in
      let R := fresh "R" in
      remember (run fuel w1) as w' eqn:R;
      apply (completes_intro fuel w1 w' P R);
      unfold_operations_in R; branch_in R;
      subst w'; cbn; (split; [reflexivity|]); close_trace
  end.

(** ** Zero matches *)

(** C1. When the conditions match no document (the driver reports no error
    and no document), findOne, findAndUpdate and findAndRemove invoke the
    callback once with an error whose message ends with the JSON text of
    the conditions; findOnly invokes it with [(null, null)]; find, whose
    driver result is then the empty array, invokes it with [(null, [])]. *)
Theorem zero_match_outcomes (w : world) (h conditions projection options upd : value)
    (id : nat) :
  acquired w h ->
  is_function projection = false ->
  is_function options = false ->
  truthy (arg 0 (answer w)) = false ->
  (arg 1 (answer w) = VNull ->
     delivers w (findOne conditions projection (VFun (FUser id))) id
              [VError (msg_findOne +++ serialized conditions)] /\
     delivers w (findAndUpdate conditions upd (VFun (FUser id))) id
              [VError (msg_findAndUpdate +++ serialized conditions)] /\
     delivers w (findAndRemove conditions (VFun (FUser id))) id
              [VError (msg_findAndRemove +++ serialized conditions)] /\
     delivers w (findOnly conditions projection (VFun (FUser id))) id
              [VNull; VNull]) /\
  (arg 1 (answer w) = VArr [] ->
     delivers w (find conditions projection options (VFun (FUser id))) id
              [VNull; VArr []]).
Proof.
  intros A Hp Ho E. split; intro D; open_world w.
  - repeat split; run_to_end 3.
  - run_to_end 3.
Qed.

Lemma zero_match_outcomes_witness :
  let w := mkWorld (VStr "users") None
             (fun n => match n with
                       | 0 => [VNull; VColl (VStr "users")]
                       | _ => [VNull; VNull]
                       end)
             (fun _ _ _ => None) 0 [] [] [] in
  delivers w (findOne (VObj [("name", VStr "a")]) (VObj []) (VFun (FUser 0))) 0
           [VError (msg_findOne +++ serialized (VObj [("name", VStr "a")]))].
Proof.
  intro w.
  refine (proj1 (proj1 (zero_match_outcomes w (VStr "users")
            (VObj [("name", VStr "a")]) (VObj []) (VObj []) VNull 0 _ _ _ _) _)).
  - repeat split; reflexivity.
  - reflexivity.
  - reflexivity.
  - reflexivity.
  - reflexivity.
Defined.

(** ** Updates and removals *)

(** C8. update sends the driver [{w: 1, multi: true}] whatever its
    arguments; when the driver reports no error and zero documents, update
    and remove invoke the callback once with an error whose message ends
    with the JSON text of the conditions. *)
Theorem update_remove_contract (w : world) (h conditions upd : value) (id : nat) :
  acquired w h ->
  (forall callback,
     requests_of (trace (run 1 (exec (update conditions upd callback) w))) =
     requests_of (trace w) ++
       [EGetCollection (collection w) (VObj [("w", VNum 1); ("strict", VBool true)]);
        ERequest (VColl h) m_update
                 [conditions; upd; VObj [("w", VNum 1); ("multi", VBool true)]]]) /\
  (truthy (arg 0 (answer w)) = false ->
   arg 1 (answer w) = VNum 0 ->
   delivers w (update conditions upd (VFun (FUser id))) id
            [VError (msg_update +++ serialized conditions)] /\
   delivers w (remove conditions (VFun (FUser id))) id
            [VError (msg_remove +++ serialized conditions)]).
Proof.
  intro A. split.
  - intro callback. open_world w. unfold exec, update. cbn.
    rewrite H0, H1. cbn.
    rewrite !requests_of_app. cbn. now rewrite <- app_assoc.
  - intros E Z. open_world w. split; run_to_end 3.
Qed.

Lemma update_remove_contract_witness :
  let w := mkWorld (VStr "users") None
             (fun n => match n with
                       | 0 => [VNull; VColl (VStr "users")]
                       | _ => [VNull; VNum 0]
                       end)
             (fun _ _ _ => None) 0 [] [] [] in
  delivers w (update (VObj [("name", VStr "a")])
                     (VObj [("$set", VObj [("name", VStr "b")])]) (VFun (FUser 0))) 0
           [VError (msg_update +++ serialized (VObj [("name", VStr "a")]))].
Proof.
  intro w.
  refine (proj1 (proj2 (update_remove_contract w (VStr "users")
            (VObj [("name", VStr "a")])
            (VObj [("$set", VObj [("name", VStr "b")])]) 0 _) _ _)).
  - repeat split; reflexivity.
  - reflexivity.
  - reflexivity.
Defined.

(** C10. When the driver reports no error and a non-zero number of
    documents, update, updateOne and remove invoke the callback once with
    the single argument [null]: no error and no result. *)
Theorem update_remove_success_no_result (w : world)
    (h conditions upd options : value) (id : nat) :
  acquired w h ->
  is_function options = false ->
  truthy (arg 0 (answer w)) = false ->
  truthy (arg 1 (answer w)) = true ->
  delivers w (update conditions upd (VFun (FUser id))) id [VNull] /\
  delivers w (updateOne conditions upd options (VFun (FUser id))) id [VNull] /\
  delivers w (remove conditions (VFun (FUser id))) id [VNull].
Proof.
  intros A Ho E Z. open_world w. repeat split; run_to_end 3.
Qed.

Lemma update_remove_success_no_result_witness :
  let w := mkWorld (VStr "users") None
             (fun n => match n with
                       | 0 => [VNull; VColl (VStr "users")]
                       | _ => [VNull; VNum 1]
                       end)
             (fun _ _ _ => None) 0 [] [] [] in
  delivers w (remove (VObj [("name", VStr "b")]) (VFun (FUser 0))) 0 [VNull].
Proof.
  intro w.
  refine (proj2 (proj2 (update_remove_success_no_result w (VStr "users")
            (VObj [("name", VStr "b")]) VNull (VObj []) 0 _ _ _ _))).
  - repeat split; reflexivity.
  - reflexivity.
  - reflexivity.
  - reflexivity.
Defined.

(** ** updateOne and its options *)

Lemma get_field_set_field (k k' : string) (v : value) (l : list (string * value)) :
  get_field k (set_field k' v l) =
  if String.eqb k k' then Some v else get_field k l.
Proof.
  induction l as [|[k1 v1] l IH]; simpl.
  - destruct (String.eqb k k'); reflexivity.
  - destruct (String.eqb k' k1) eqn:E1; simpl.
    + apply String.eqb_eq in E1. subst k1.
      destruct (String.eqb k k'); reflexivity.
    + rewrite IH. destruct (String.eqb k k1) eqn:E2; [|reflexivity].
      apply String.eqb_eq in E2. subst k1.
      destruct (String.eqb k k') eqn:E3; [|reflexivity].
      apply String.eqb_eq in E3. subst k'. now rewrite String.eqb_refl in E1.
Qed.

Lemma get_field_absent (k : string) (l : list (string * value)) :
  ~ In k (map fst l) -> get_field k l = None.
Proof.
  induction l as [|[k1 v1] l IH]; simpl; intro N; [reflexivity|].
  destruct (String.eqb k k1) eqn:E.
  - apply String.eqb_eq in E. subst. exfalso. apply N. now left.
  - apply IH. intro I. apply N. now right.
Qed.

(** Assigning the properties of [s] one after the other: a property of
    [s] wins, the others keep the value they had. *)
Lemma get_field_assign_all (k : string) (s t : list (string * value)) :
  NoDup (map fst s) ->
  get_field k (fold_left (fun acc kv => set_field (fst kv) (snd kv) acc) s t) =
  match get_field k s with
  | Some v => Some v
  | None => get_field k t
  end.
Proof.
  revert t. induction s as [|[k1 v1] s IH]; intros t D; simpl; [reflexivity|].
  inversion D as [|? ? N D']; subst.
  rewrite (IH _ D'), get_field_set_field.
  destruct (String.eqb k k1) eqn:E; [|reflexivity].
  apply String.eqb_eq in E. subst k1.
  now rewrite (get_field_absent _ _ N).
Qed.

(** C6. updateOne called with an options object sends the driver the
    caller's options merged over [{w: 1}]: a property the caller gives is
    passed as given, [w] is 1 when the caller does not give it, and there
    is nothing else.  When the driver reports no error and zero documents,
    the callback gets an error whose message ends with the JSON text of the
    conditions. *)
Theorem updateOne_options_merged (w : world) (h conditions upd : value)
    (options : list (string * value)) (id : nat) :
  acquired w h ->
  NoDup (map fst options) ->
  (forall callback, exists merged,
     requests_of (trace (run 1 (exec (updateOne conditions upd (VObj options) callback) w))) =
     requests_of (trace w) ++
       [EGetCollection (collection w) (VObj [("w", VNum 1); ("strict", VBool true)]);
        ERequest (VColl h) m_update [conditions; upd; VObj merged]] /\
     VObj merged = extend (VObj [("w", VNum 1)]) (VObj options) /\
     forall k, get_field k merged =
               match get_field k options with
               | Some v => Some v
               | None => get_field k [("w", VNum 1)]
               end) /\
  (truthy (arg 0 (answer w)) = false ->
   arg 1 (answer w) = VNum 0 ->
   delivers w (updateOne conditions upd (VObj options) (VFun (FUser id))) id
            [VError (msg_updateOne +++ serialized conditions)]).
Proof.
  intros A D. split.
  - intro callback. open_world w. eexists. split; [|split].
    + unfold exec, updateOne. cbn. rewrite H0, H1. cbn.
      rewrite !requests_of_app. cbn. rewrite <- app_assoc. reflexivity.
    + reflexivity.
    + intro k. now apply get_field_assign_all.
  - intros E Z. open_world w. run_to_end 3.
Qed.

Lemma updateOne_options_merged_witness :
  let w := mkWorld (VStr "users") None
             (fun n => match n with
                       | 0 => [VNull; VColl (VStr "users")]
                       | _ => [VNull; VNum 0]
                       end)
             (fun _ _ _ => None) 0 [] [] [] in
  delivers w (updateOne (VObj [("name", VStr "a")]) (VObj [])
                        (VObj [("upsert", VBool true)]) (VFun (FUser 0))) 0
           [VError (msg_updateOne +++ serialized (VObj [("name", VStr "a")]))].
Proof.
  intro w.
  refine (proj2 (updateOne_options_merged w (VStr "users")
            (VObj [("name", VStr "a")]) (VObj []) [("upsert", VBool true)] 0 _ _) _ _).
  - repeat split; reflexivity.
  - repeat constructor. simpl. tauto.
  - reflexivity.
  - reflexivity.
Defined.

Example updateOne_sends_upsert :
  let w := mkWorld (VStr "users") None
             (fun _ => [VNull; VColl (VStr "users")]) (fun _ _ _ => None) 0 [] [] [] in
  requests_of (trace (run 1 (exec (updateOne VNull VNull
                 (VObj [("upsert", VBool true); ("w", VNum 0)]) VNull) w))) =
  [EGetCollection (VStr "users") (VObj [("w", VNum 1); ("strict", VBool true)]);
   ERequest (VColl (VStr "users")) m_update
     [VNull; VNull; VObj [("w", VNum 0); ("upsert", VBool true)]]].
Proof. reflexivity. Qed.

(** ** tick *)

(** C3. [tick] of a value that is not a function is [undefined].  [tick]
    of a function [f] is a function that calls [f] with the receiver and
    the arguments it got; it returns normally whatever [f] does, and when
    [f] throws [e] it has put on the process.nextTick queue a task that,
    when the event loop runs it, throws [e] as an uncaught error. *)
Theorem tick_contract :
  (forall v, is_function v = false -> tick v = VUndefined) /\
  (forall f, exists g,
     tick (VFun f) = VFun g /\
     forall this args w,
       apply g this args w =
       match apply f this args w with
       | (Ret _, w') => (Ret tt, w')
       | (Throw e, w') => (Ret tt, schedule (VFun (FRethrow e)) w')
       end) /\
  (forall id this args w,
     trace (exec (apply (FTick (FUser id)) this args) w) =
     trace w ++ [EInvoke id this args]) /\
  (forall e rest w,
     ticks w = (VFun (FRethrow e), []) :: rest ->
     turn w = Some (log (EUncaught e) (set_ticks rest w))).
Proof.
  split; [|split; [|split]].
  - intros v F. destruct v; try reflexivity. discriminate.
  - intro f. exists (FTick f). split; [reflexivity|].
    intros this args w. cbn. unfold try_catch.
    destruct (apply f this args w) as [[[]|e] w']; reflexivity.
  - intros id this args [c ix d u n fl tk tr]. unfold exec. cbn.
    destruct (u id this args); reflexivity.
  - intros e rest w T. unfold turn. rewrite T. reflexivity.
Qed.

Lemma tick_contract_witness :
  tick VNull = VUndefined /\
  turn (mkWorld VNull None (fun _ => []) (fun _ _ _ => None) 0 []
                [(VFun (FRethrow (VStr "boom")), [])] []) =
  Some (mkWorld VNull None (fun _ => []) (fun _ _ _ => None) 0 [] []
                [EUncaught (VStr "boom")]).
Proof.
  split.
  - apply (proj1 tick_contract). reflexivity.
  - apply (proj2 (proj2 (proj2 tick_contract)) (VStr "boom") []). reflexivity.
Defined.

(** ** Callbacks that throw *)

(** C4, at a failing input.  count, findAndRemove and aggregate hand the
    driver a completion callback that is not wrapped by [tick]: when the
    caller's callback throws, the exception runs through the driver's
    frames.  findOne, which wraps its callback, keeps it out of them. *)
Theorem unwrapped_callbacks_throw_into_driver :
  let strict := VObj [("w", VNum 1); ("strict", VBool true)] in
  let c := VObj [] in
  let h := VColl (VStr "users") in
  trace (run 3 (exec (count c (VFun (FUser 0))) throwing_world)) =
    [EGetCollection (VStr "users") strict; ERequest h m_count [c];
     EInvoke 0 VUndefined [VNull; VNum 3]; EDriverSaw (VStr "boom")] /\
  trace (run 3 (exec (findAndRemove c (VFun (FUser 0))) throwing_world)) =
    [EGetCollection (VStr "users") strict;
     ERequest h m_findAndRemove [c; VArr []; VObj [("w", VNum 1)]];
     EInvoke 0 VUndefined [VNull; VNum 3]; EDriverSaw (VStr "boom")] /\
  trace (run 3 (exec (aggregate (VArr []) c (VFun (FUser 0))) throwing_world)) =
    [EGetCollection (VStr "users") strict; ERequest h m_aggregate [VArr []; c];
     EInvoke 0 VUndefined [VNull; VNum 3]; EDriverSaw (VStr "boom")] /\
  trace (run 3 (exec (findOne c c (VFun (FUser 0))) throwing_world)) =
    [EGetCollection (VStr "users") strict; ERequest h m_findOne [c; c];
     EInvoke 0 VUndefined [VNull; VNum 3]; EUncaught (VStr "boom")].
Proof. repeat split. Qed.

(** X8.  The operations that wrap their completion callback keep what the
    caller's callback throws away from the driver. *)
Lemma wrapped_operations_shield_driver (o : operation) (id : nat) (w : world) :
  idle w -> acquisition_answered w -> full_form o = true ->
  wraps_callback o = true ->
  exists w',
    completes (exec (perform o (VFun (FUser id))) w) w' /\
    filter is_driver_saw (trace w') = filter is_driver_saw (trace w).
Proof.
  intros I A F W. open_world w.
  destruct o; try discriminate W; use_full_form F; destruct A as [A|[h A]];
    run_to_end 3.
Qed.

(** ** Collection acquisition *)

(** C7, at a failing input.  The [_getCollection] of lib/index.js, whose
    comment announces the strict mode, asks for the collection with
    [{w: 1}] alone: the options have no [strict] property. *)
Theorem legacy_getCollection_not_strict (w : world) (conditions callback : value) :
  exists options,
    trace (exec (legacy_find conditions callback) w) =
      trace w ++ [EGetCollection (collection w) (VObj options)] /\
    get_field "strict" options = None.
Proof.
  exists [("w", VNum 1)]. destruct w. split; reflexivity.
Qed.

(** Every operation of the later variants asks for the collection in
    strict mode, as its first action. *)
Lemma operations_acquire_strict (o : operation) (callback : value) (w : world) :
  trace (exec (perform o callback) w) =
  trace w ++ [EGetCollection (collection w)
                             (VObj [("w", VNum 1); ("strict", VBool true)])].
Proof.
  destruct w, o; unfold exec, perform, find, findOne, findOnly, aggregate, updateOne;
    repeat match goal with
           | |- context [is_function ?v] => destruct (is_function v)
           end; reflexivity.
Qed.

(** X5.  When the collection cannot be acquired, the operation makes no
    other request, and the callback gets the driver's error as it is. *)
Lemma acquisition_failure_aborts (o : operation) (id : nat) (w : world) :
  idle w -> full_form o = true ->
  truthy (arg 0 (driver w (issued w))) = true ->
  exists w', completes (exec (perform o (VFun (FUser id))) w) w' /\
    (calls_of id (trace w') = calls_of id (trace w) ++ [[arg 0 (driver w (issued w))]] /\
     requests_of (trace w') =
       requests_of (trace w) ++
       [EGetCollection (collection w) (VObj [("w", VNum 1); ("strict", VBool true)])]).
Proof.
  intros I F E. open_world w. destruct o; use_full_form F; run_to_end 2; now split.
Qed.

(** ** ensureIndexes *)

Lemma creating_turn_failure c h specs d u k id tr :
  truthy (arg 0 (d k)) = true ->
  turn (creating c h specs d u k id tr) =
  Some (match u id VUndefined [arg 0 (d k)] with
        | Some e =>
            mkWorld c (Some specs) d u (S k) [] [(VFun (FRethrow e), [])]
                    (tr ++ [EInvoke id VUndefined [arg 0 (d k)]])
        | None =>
            mkWorld c (Some specs) d u (S k) [] []
                    (tr ++ [EInvoke id VUndefined [arg 0 (d k)]])
        end).
Proof.
  intro E. unfold creating. cbn. rewrite E. cbn.
  destruct (u id VUndefined [arg 0 (d k)]); reflexivity.
Qed.

Lemma creating_turn_next c h index specs d u k id tr :
  truthy (arg 0 (d k)) = false ->
  turn (creating c h (index :: specs) d u k id tr) =
  Some (creating c h specs d u (S k) id (tr ++ [ensure_request h index])).
Proof.
  intro E. destruct index as [keys options]. unfold creating. cbn. rewrite E. reflexivity.
Qed.

Lemma creating_turn_last c h d u k id tr :
  truthy (arg 0 (d k)) = false ->
  turn (creating c h [] d u k id tr) =
  Some (match u id VUndefined [VUndefined] with
        | Some e =>
            mkWorld c (Some []) d u (S k) [] [(VFun (FRethrow e), [])]
                    (tr ++ [EInvoke id VUndefined [VUndefined]])
        | None =>
            mkWorld c (Some []) d u (S k) [] []
                    (tr ++ [EInvoke id VUndefined [VUndefined]])
        end).
Proof.
  intro E. unfold creating. cbn. rewrite E. cbn.
  destruct (u id VUndefined [VUndefined]); reflexivity.
Qed.

(** After [done] has called the callback: the event loop has at most the
    re-throw of the callback's exception left. *)
Lemma reported_completes c ix d u n id tr args :
  exists w',
    completes (match u id VUndefined args with
               | Some e => mkWorld c ix d u n [] [(VFun (FRethrow e), [])]
                                   (tr ++ [EInvoke id VUndefined args])
               | None => mkWorld c ix d u n [] [] (tr ++ [EInvoke id VUndefined args])
               end) w' /\
    trace w' = tr ++ [EInvoke id VUndefined args] ++ uncaught (u id VUndefined args) /\
    indexes w' = ix.
Proof.
  destruct (u id VUndefined args) as [e|].
  - eexists. split; [|split].
    + eapply completes_step; [reflexivity|]. apply completes_now. reflexivity.
    + cbn. now rewrite <- app_assoc.
    + reflexivity.
  - eexists. split; [|split].
    + apply completes_now. reflexivity.
    + cbn. reflexivity.
    + reflexivity.
Qed.

(** All the creations succeed: the remaining declarations are requested
    in order, then the callback is called without an error. *)
Lemma creating_all_succeed c h specs d u k id tr :
  (forall i, i <= List.length specs -> truthy (arg 0 (d (k + i))) = false) ->
  exists w',
    completes (creating c h specs d u k id tr) w' /\
    trace w' = tr ++ map (ensure_request h) specs ++
               [EInvoke id VUndefined [VUndefined]] ++
               uncaught (u id VUndefined [VUndefined]) /\
    indexes w' = Some [].
Proof.
  revert k tr. induction specs as [|index specs IH]; intros k tr OK.
  - destruct (reported_completes c (Some []) d u (S k) id tr [VUndefined])
      as [w' [C [T I]]].
    exists w'. split; [|split; assumption].
    eapply completes_step; [|exact C].
    apply creating_turn_last. specialize (OK 0 (Nat.le_refl _)).
    now rewrite Nat.add_0_r in OK.
  - destruct (IH (S k) (tr ++ [ensure_request h index])) as [w' [C [T I]]].
    + intros i Hi. rewrite Nat.add_succ_comm. apply OK. simpl. lia.
    + exists w'. split; [|split].
      * eapply completes_step; [|exact C].
        apply creating_turn_next. specialize (OK 0 (Nat.le_0_l _)).
        now rewrite Nat.add_0_r in OK.
      * rewrite T. simpl. now rewrite <- app_assoc.
      * exact I.
Qed.

(** The creation answered by the driver's [(k + j)]-th reply fails: the
    [j] declarations before it have been requested, the others never are,
    and the callback gets the error. *)
Lemma creating_fails_at c h specs d u k id tr j :
  j <= List.length specs ->
  (forall i, i < j -> truthy (arg 0 (d (k + i))) = false) ->
  truthy (arg 0 (d (k + j))) = true ->
  exists w',
    completes (creating c h specs d u k id tr) w' /\
    trace w' = tr ++ map (ensure_request h) (firstn j specs) ++
               [EInvoke id VUndefined [arg 0 (d (k + j))]] ++
               uncaught (u id VUndefined [arg 0 (d (k + j))]) /\
    indexes w' = Some (skipn j specs).
Proof.
  revert specs k tr. induction j as [|j IH]; intros specs k tr L OK KO.
  - rewrite Nat.add_0_r in *.
    destruct (reported_completes c (Some specs) d u (S k) id tr [arg 0 (d k)])
      as [w' [C [T I]]].
    exists w'. split; [|split; assumption].
    eapply completes_step; [|exact C].
    now apply creating_turn_failure.
  - destruct specs as [|index specs]; [simpl in L; lia|].
    destruct (IH specs (S k) (tr ++ [ensure_request h index])) as [w' [C [T I]]].
    + simpl in L. lia.
    + intros i Hi. rewrite Nat.add_succ_comm. apply OK. lia.
    + now rewrite Nat.add_succ_comm.
    + exists w'. rewrite Nat.add_succ_comm in T. split; [|split].
      * eapply completes_step; [|exact C].
        apply creating_turn_next. specialize (OK 0 (Nat.lt_0_succ _)).
        now rewrite Nat.add_0_r in OK.
      * rewrite T. simpl. now rewrite <- app_assoc.
      * exact I.
Qed.

(** Whatever the driver replies, the callback is called once. *)
Lemma creating_reports_once c h specs d u k id tr :
  exists w',
    completes (creating c h specs d u k id tr) w' /\
    exists args,
      calls_of id (trace w') = calls_of id tr ++ [args] /\
      (args = [VUndefined] \/ exists e, truthy e = true /\ args = [e]).
Proof.
  revert k tr. induction specs as [|index specs IH]; intros k tr;
    destruct (truthy (arg 0 (d k))) eqn:E.
  - destruct (reported_completes c (Some []) d u (S k) id tr [arg 0 (d k)])
      as [w' [C [T I]]].
    exists w'. split.
    + eapply completes_step; [|exact C]. now apply creating_turn_failure.
    + exists [arg 0 (d k)]. split.
      * rewrite T, !calls_of_app. cbn. rewrite Nat.eqb_refl.
        destruct (u id VUndefined [arg 0 (d k)]); cbn; now rewrite ?app_nil_r.
      * right. now exists (arg 0 (d k)).
  - destruct (reported_completes c (Some []) d u (S k) id tr [VUndefined])
      as [w' [C [T I]]].
    exists w'. split.
    + eapply completes_step; [|exact C]. now apply creating_turn_last.
    + exists [VUndefined]. split.
      * rewrite T, !calls_of_app. cbn. rewrite Nat.eqb_refl.
        destruct (u id VUndefined [VUndefined]); cbn; now rewrite ?app_nil_r.
      * now left.
  - destruct (reported_completes c (Some (index :: specs)) d u (S k) id tr [arg 0 (d k)])
      as [w' [C [T I]]].
    exists w'. split.
    + eapply completes_step; [|exact C]. now apply creating_turn_failure.
    + exists [arg 0 (d k)]. split.
      * rewrite T, !calls_of_app. cbn. rewrite Nat.eqb_refl.
        destruct (u id VUndefined [arg 0 (d k)]); cbn; now rewrite ?app_nil_r.
      * right. now exists (arg 0 (d k)).
  - destruct (IH (S k) (tr ++ [ensure_request h index])) as [w' [C [args [T S]]]].
    exists w'. split.
    + eapply completes_step; [|exact C]. now apply creating_turn_next.
    + exists args. split; [|exact S].
      rewrite T, calls_of_app. cbn. now rewrite app_nil_r.
Qed.



(** The two first steps of [ensureIndexes] on a non-empty list: the
    collection request, then, once it is answered with a handle, the
    request for the first declaration. *)
Lemma ensureIndexes_requests_collection c index specs d u n id tr :
  exec (ensureIndexes (VFun (FUser id)))
       (mkWorld c (Some (index :: specs)) d u n [] [] tr) =
  mkWorld c (Some (index :: specs)) d u (S n)
          [(VFun (FTick (ensureIndexes_onCollection (VFun (FUser id)))), d n)] []
          (tr ++ [EGetCollection c (VObj [("w", VNum 1); ("strict", VBool true)])]).
Proof. reflexivity. Qed.

Lemma ensureIndexes_starts c h index specs d u n id tr :
  truthy (arg 0 (d n)) = false ->
  arg 1 (d n) = VColl h ->
  turn (exec (ensureIndexes (VFun (FUser id)))
             (mkWorld c (Some (index :: specs)) d u n [] [] tr)) =
  Some (creating c h specs d u (S n) id
          (tr ++ [EGetCollection c (VObj [("w", VNum 1); ("strict", VBool true)])]
              ++ [ensure_request h index])).
Proof.
  intros E H. destruct index as [keys options].
  rewrite ensureIndexes_requests_collection. cbn. rewrite E, H. cbn.
  unfold creating. now rewrite <- app_assoc.
Qed.

Lemma ensureIndexes_acquisition_fails c index specs d u n id tr :
  truthy (arg 0 (d n)) = true ->
  turn (exec (ensureIndexes (VFun (FUser id)))
             (mkWorld c (Some (index :: specs)) d u n [] [] tr)) =
  Some (match u id VUndefined [arg 0 (d n)] with
        | Some e =>
            mkWorld c (Some (index :: specs)) d u (S n) [] [(VFun (FRethrow e), [])]
              ((tr ++ [EGetCollection c (VObj [("w", VNum 1); ("strict", VBool true)])])
                  ++ [EInvoke id VUndefined [arg 0 (d n)]])
        | None =>
            mkWorld c (Some (index :: specs)) d u (S n) [] []
              ((tr ++ [EGetCollection c (VObj [("w", VNum 1); ("strict", VBool true)])])
                  ++ [EInvoke id VUndefined [arg 0 (d n)]])
        end).
Proof.
  intro E. rewrite ensureIndexes_requests_collection. cbn. rewrite E. cbn.
  destruct (u id VUndefined [arg 0 (d n)]); reflexivity.
Qed.

(** With no declaration, [ensureIndexes] only schedules the callback. *)
Lemma ensureIndexes_nothing_declared c ix d u n id tr :
  ix = None \/ ix = Some [] ->
  exec (ensureIndexes (VFun (FUser id))) (mkWorld c ix d u n [] [] tr) =
  mkWorld c ix d u n [] [(VFun (FUser id), [])] tr.
Proof. intros [E|E]; subst; reflexivity. Qed.



(** ** The result envelope *)

(** C2 fails as stated: a successful update calls the callback with
    [null] alone, which is neither an error nor a result. *)
Lemma update_success_breaks_envelope :
  ~ (forall (o : operation) (id : nat) (w : world) (args : list value),
       idle w -> acquisition_answered w -> full_form o = true ->
       delivers w (perform o (VFun (FUser id))) id args ->
       result_envelope args).
Proof.
  intro H.
  assert (D : delivers one_document_world
                (perform (Update (VObj [("name", VStr "a")])
                                 (VObj [("$set", VObj [("name", VStr "b")])]))
                         (VFun (FUser 0))) 0 [VNull]).
  { exists (run 2 (exec (perform (Update (VObj [("name", VStr "a")])
                                   (VObj [("$set", VObj [("name", VStr "b")])]))
                                 (VFun (FUser 0))) one_document_world)).
    split; [|reflexivity]. exists 2. split; reflexivity. }
  apply H in D.
  - discriminate D.
  - split; reflexivity.
  - right. exists (VStr "users"). reflexivity.
  - reflexivity.
Qed.

Lemma single_argument_no_result (x : value) :
  carries_error [x] && carries_result [x] = false.
Proof. apply andb_false_r. Qed.

Ltac close_envelope :=
  eexists; split; [reflexivity|]; cbn;
  first
    [ solve [ left; eexists; (split; [|reflexivity]); first [eassumption | reflexivity] ]
    | solve [ right; reflexivity ]
    | split;
      [ first [ left; eexists; (split; [|reflexivity]); first [eassumption | reflexivity]
              | right; cbn; first [reflexivity | eexists; reflexivity] ]
      | first [ reflexivity | apply single_argument_no_result ] ] ].

(** C2, amended.  Against a driver that answers the collection request
    with an error or a handle, every operation called with all its
    arguments and a function as callback calls it exactly once.  Every
    operation but aggregate never gives it both an error and a result: it
    gives it an error and nothing else, or no error; then update, updateOne
    and remove give it [null] alone, and the others [null] and a result.
    aggregate, which hands the caller's callback to the driver, gives it the
    acquisition error alone or else the driver's reply as it is.
    ensureIndexes calls its callback exactly once, with an error alone or
    with no error and no result. *)
Theorem callback_once_error_or_value (w : world) (id : nat) :
  idle w -> acquisition_answered w ->
  (forall o, full_form o = true ->
     exists w',
       completes (exec (perform o (VFun (FUser id))) w) w' /\
       exists args,
         calls_of id (trace w') = calls_of id (trace w) ++ [args] /\
         if hands_over_callback o
         then error_alone args \/ args = answer w
         else (error_alone args \/ success_shape o args) /\
              carries_error args && carries_result args = false) /\
  (exists w',
     completes (exec (ensureIndexes (VFun (FUser id))) w) w' /\
     exists args,
       calls_of id (trace w') = calls_of id (trace w) ++ [args] /\
       (error_alone args \/ args = [VUndefined] \/ args = []) /\
       carries_error args && carries_result args = false).
Proof.
  intros I A. split.
  - intros o F. open_world w.
    destruct o; use_full_form F; destruct A as [A|[h A]];
      run_to_end 3; close_envelope.
  - open_world w. destruct ix as [[|index specs]|].
    + rewrite ensureIndexes_nothing_declared by now right.
      destruct (usr id VUndefined []) as [e|] eqn:U; eexists; (split;
        [ eapply completes_step;
          [ cbn; rewrite U; reflexivity | apply completes_now; reflexivity ]
        | exists []; split; [close_trace | split; [now right; right | reflexivity]] ]).
    + destruct (truthy (arg 0 (drv n))) eqn:E.
      * destruct (reported_completes coll (Some (index :: specs)) drv usr (S n) id
                    (tr ++ [EGetCollection coll (VObj [("w", VNum 1); ("strict", VBool true)])])
                    [arg 0 (drv n)]) as [w' [C [T _]]].
        exists w'. split.
        -- eapply completes_step; [|exact C].
           now apply ensureIndexes_acquisition_fails.
        -- exists [arg 0 (drv n)]. split; [|split].
           ++ rewrite T, !calls_of_app. cbn. rewrite Nat.eqb_refl.
              destruct (usr id VUndefined [arg 0 (drv n)]); cbn; now rewrite ?app_nil_r.
           ++ left. now exists (arg 0 (drv n)).
           ++ apply single_argument_no_result.
      * destruct A as [A|[h A]]; [discriminate|].
        destruct (creating_reports_once coll h specs drv usr (S n) id
                    (tr ++ [EGetCollection coll (VObj [("w", VNum 1); ("strict", VBool true)])]
                        ++ [ensure_request h index])) as [w' [C [args [T S]]]].
        exists w'. split.
        -- eapply completes_step; [|exact C]. now apply ensureIndexes_starts.
        -- exists args. split; [|split].
           ++ rewrite T, !calls_of_app. cbn. now rewrite !app_nil_r.
           ++ destruct S as [S|S]; [right; now left | now left].
           ++ destruct S as [->|[e [_ ->]]]; apply single_argument_no_result.
    + rewrite ensureIndexes_nothing_declared by now left.
      destruct (usr id VUndefined []) as [e|] eqn:U; eexists; (split;
        [ eapply completes_step;
          [ cbn; rewrite U; reflexivity | apply completes_now; reflexivity ]
        | exists []; split; [close_trace | split; [now right; right | reflexivity]] ]).
Qed.

Lemma callback_once_error_or_value_witness :
  exists w',
    completes (exec (perform (Count (VObj [])) (VFun (FUser 0))) one_document_world) w' /\
    exists args,
      calls_of 0 (trace w') = calls_of 0 (trace one_document_world) ++ [args] /\
      (error_alone args \/ success_shape (Count (VObj [])) args) /\
      carries_error args && carries_result args = false.
Proof.
  refine (proj1 (callback_once_error_or_value one_document_world 0 _ _) (Count (VObj [])) _).
  - split; reflexivity.
  - right. exists (VStr "users"). reflexivity.
  - reflexivity.
Defined.

(** aggregate does give the callback an error together with a result when
    the driver reports both. *)
Lemma aggregate_passes_error_with_result :
  delivers error_with_result_world
           (aggregate (VArr []) (VObj []) (VFun (FUser 0))) 0
           [VStr "socket closed"; VNum 5] /\
  carries_error [VStr "socket closed"; VNum 5] &&
  carries_result [VStr "socket closed"; VNum 5] = true.
Proof.
  split; [|reflexivity].
  exists (run 2 (exec (aggregate (VArr []) (VObj []) (VFun (FUser 0)))
                      error_with_result_world)).
  split; [|reflexivity]. exists 2. split; reflexivity.
Qed.

(** ** The provider instance *)

Lemma same_instance_refl (w : world) : same_instance w w.
Proof. unfold same_instance. auto. Qed.

Lemma same_instance_trans (w1 w2 w3 : world) :
  same_instance w1 w2 -> same_instance w2 w3 -> same_instance w1 w3.
Proof.
  unfold same_instance. intros [C1 [I1 P1]] [C2 [I2 P2]].
  split; [congruence|]. split; [congruence|]. auto.
Qed.

Lemma same_instance_log (e : event) (w : world) : same_instance w (log e w).
Proof. destruct w. unfold same_instance, no_index_work_pending. simpl. auto. Qed.

Lemma same_instance_submit (e : event) (cb : value) (w : world) :
  no_index_work_value cb = true -> same_instance w (submit e cb w).
Proof.
  intro Q. destruct w. unfold same_instance, no_index_work_pending. simpl.
  split; [reflexivity|]. split; [reflexivity|]. intros [F T]. split; [|exact T].
  apply Forall_app. split; [exact F|]. now repeat constructor.
Qed.

Lemma same_instance_schedule (f : value) (w : world) :
  no_index_work_value f = true -> same_instance w (schedule f w).
Proof.
  intro Q. destruct w. unfold same_instance, no_index_work_pending. simpl.
  split; [reflexivity|]. split; [reflexivity|]. intros [F T]. split; [exact F|].
  apply Forall_app. split; [exact T|]. now repeat constructor.
Qed.

Lemma same_instance_request (coll : value) (m : method) (args : list value)
    (cb : value) (w : world) :
  no_index_work_value cb = true ->
  same_instance w (snd (request coll m args cb w)).
Proof.
  intro Q. destruct coll; try apply same_instance_refl.
  now apply same_instance_submit.
Qed.

(** A function that does no index work leaves the instance as it is,
    whatever it is applied to. *)
Lemma apply_same_instance (f : func) :
  no_index_work f = true ->
  forall this args w, same_instance w (snd (apply f this args w)).
Proof.
  induction f using func_value_ind
    with (P0 := fun v => no_index_work_value v = true ->
                         forall args w, same_instance w (snd (call v args w)));
    intro Q; intros; cbn in Q; try discriminate; simpl;
    repeat match goal with
           | |- context [if ?b then _ else _] => destruct b
           end;
    try (apply same_instance_request; simpl; assumption);
    try match goal with
        | IH : _ -> forall args w, same_instance w (snd (call ?cb args w))
          |- same_instance _ (snd (call ?cb _ _)) => apply IH; assumption
        end;
    try exact (same_instance_refl _).
  - (* FUser *) apply same_instance_log.
  - (* FTick *) unfold try_catch.
    specialize (IHf Q this args w).
    destruct (apply f this args w) as [[a|e] w1]; simpl in *; [exact IHf|].
    eapply same_instance_trans; [exact IHf|]. now apply same_instance_schedule.
  - (* VFun *) now apply IHf.
Qed.

Lemma call_same_instance (v : value) (args : list value) (w : world) :
  no_index_work_value v = true -> same_instance w (snd (call v args w)).
Proof.
  intro Q. destruct v; try apply same_instance_refl.
  now apply apply_same_instance.
Qed.

Lemma turn_same_instance (w w' : world) :
  no_index_work_pending w -> turn w = Some w' ->
  same_instance w w' /\ no_index_work_pending w'.
Proof.
  intros P T.
  assert (S : same_instance w w'); [|split; [exact S | now apply S]].
  destruct w as [c ix d u n fl tk tr]. destruct P as [F K]. simpl in F, K.
  unfold turn in T. simpl in T. destruct tk as [|[f args] tk].
  - destruct fl as [|[cb reply] fl]; [discriminate|].
    assert (Q : no_index_work_value cb = true) by now inversion F.
    assert (S0 : same_instance (mkWorld c ix d u n ((cb, reply) :: fl) [] tr)
                               (mkWorld c ix d u n fl [] tr)).
    { unfold same_instance, no_index_work_pending. simpl.
      split; [reflexivity|]. split; [reflexivity|].
      intros [F' K']. split; [now inversion F' | exact K']. }
    destruct cb; injection T as <-; try exact S0.
    eapply same_instance_trans; [exact S0|].
    pose proof (apply_same_instance f Q VUndefined reply (mkWorld c ix d u n fl [] tr)) as A.
    cbn. destruct (apply f VUndefined reply (mkWorld c ix d u n fl [] tr)) as [[a|e] w1];
      simpl in A; [exact A|].
    eapply same_instance_trans; [exact A | apply same_instance_log].
  - assert (Q : no_index_work_value f = true) by now inversion K.
    assert (S0 : same_instance (mkWorld c ix d u n fl ((f, args) :: tk) tr)
                               (mkWorld c ix d u n fl tk tr)).
    { unfold same_instance, no_index_work_pending. simpl.
      split; [reflexivity|]. split; [reflexivity|].
      intros [F' K']. split; [exact F' | now inversion K']. }
    injection T as <-.
    eapply same_instance_trans; [exact S0|].
    pose proof (call_same_instance f args (mkWorld c ix d u n fl tk tr) Q) as A.
    cbn. destruct (call f args (mkWorld c ix d u n fl tk tr)) as [[a|e] w1];
      simpl in A; [exact A|].
    eapply same_instance_trans; [exact A | apply same_instance_log].
Qed.

Lemma run_same_instance (fuel : nat) (w : world) :
  no_index_work_pending w ->
  same_instance w (run fuel w) /\ no_index_work_pending (run fuel w).
Proof.
  revert w. induction fuel as [|fuel IH]; intros w P.
  - split; [apply same_instance_refl | exact P].
  - rewrite run_S. destruct (turn w) as [w1|] eqn:T.
    + destruct (turn_same_instance _ _ P T) as [S1 P1].
      destruct (IH w1 P1) as [S2 P2].
      split; [eapply same_instance_trans; eassumption | exact P2].
    + split; [apply same_instance_refl | exact P].
Qed.

Lemma perform_same_instance (o : operation) (callback : value) (w : world) :
  plain_arguments o = true -> no_index_work_value callback = true ->
  same_instance w (exec (perform o callback) w).
Proof.
  intros A Q. unfold exec.
  destruct o; simpl in A; try (apply andb_prop in A; destruct A as [A A']);
    unfold perform, find, findOne, findOnly, aggregate, create, createOne, update,
      updateOne, findAndUpdate, remove, removeOnly, findAndRemove, count;
    repeat match goal with
           | |- context [is_function ?v] => destruct (is_function v)
           end;
    destruct w; apply same_instance_submit; simpl; first [assumption | reflexivity].
Qed.

(** The declarations do not survive ensureIndexes: it shifts them out of
    [this.indexes]. *)
Lemma ensureIndexes_consumes_declarations :
  ~ (forall (w w' : world) (callback : value),
       idle w ->
       completes (exec (ensureIndexes callback) w) w' ->
       indexes w' = indexes w).
Proof.
  intro H.
  specialize (H indexing_world
                (run 3 (exec (ensureIndexes (VFun (FUser 0))) indexing_world))
                (VFun (FUser 0))).
  assert (E : Some (@nil index_spec) = Some two_indexes).
  { apply H.
    - split; reflexivity.
    - exists 3. split; reflexivity. }
  discriminate E.
Qed.

(** C9, at failing inputs.  [ensureIndexes] binds its local [indexes] to
    the array [this.indexes] itself and uses [shift] as its loop cursor, so
    a call changes the instance.  With two declarations: after a run in
    which both creations succeed, [this.indexes] is empty; when the first
    creation fails, a second call asks for the second index only and
    reports success, the failed index being asked for never again; two calls
    made one after the other share the list, each creates one of the two
    indexes, two requests are outstanding at once, and each reports the
    success of the whole. *)
Theorem ensureIndexes_loses_declarations :
  let strict :=
    EGetCollection (VStr "users") (VObj [("w", VNum 1); ("strict", VBool true)]) in
  let email := ensure_request (VStr "users") (VObj [("email", VNum 1)], [("unique", VBool true)]) in
  let name := ensure_request (VStr "users") (VObj [("name", VNum 1)], []) in
  let first := VFun (FUser 0) in
  let second := VFun (FUser 1) in
  (indexes indexing_world = Some two_indexes /\
   indexes (run 3 (exec (ensureIndexes first) indexing_world)) = Some []) /\
  (let failed := run 2 (exec (ensureIndexes first) retry_world) in
   trace failed = [strict; email; EInvoke 0 VUndefined [VStr "duplicate key"]] /\
   turn failed = None /\
   trace (run 2 (exec (ensureIndexes second) failed)) =
     trace failed ++ [strict; name; EInvoke 1 VUndefined [VUndefined]]) /\
  (let both := exec (ensureIndexes first ;;; ensureIndexes second) indexing_world in
   trace (run 4 both) =
     [strict; strict; email; name;
      EInvoke 0 VUndefined [VUndefined]; EInvoke 1 VUndefined [VUndefined]] /\
   List.length (inflight (run 2 both)) = 2 /\
   turn (run 4 both) = None).
Proof. repeat split. Qed.

(** X21.  The operations other than ensureIndexes never change the
    instance: with any number of their calls outstanding, the collection
    name and the index declarations are the same after every turn of the
    event loop.  ensureIndexes removes from [this.indexes] the declarations
    it requests: when every creation succeeds the list is empty at the
    end. *)
Theorem other_operations_preserve_instance (w : world) :
  (forall (o : operation) (callback : value) (fuel : nat),
     no_index_work_pending w ->
     plain_arguments o = true ->
     no_index_work_value callback = true ->
     collection (run fuel (exec (perform o callback) w)) = collection w /\
     indexes (run fuel (exec (perform o callback) w)) = indexes w) /\
  (forall (h : value) (specs : list index_spec) (id : nat),
     acquired w h -> indexes w = Some specs -> specs <> [] ->
     (forall i, i < List.length specs ->
                truthy (arg 0 (driver w (S (issued w) + i))) = false) ->
     exists w',
       completes (exec (ensureIndexes (VFun (FUser id))) w) w' /\
       indexes w' = Some []).
Proof.
  split.
  - intros o callback fuel P A Q.
    pose proof (perform_same_instance o callback w A Q) as [C1 [I1 P1]].
    destruct (run_same_instance fuel _ (P1 P)) as [[C2 [I2 _]] _].
    split; congruence.
  - intros h specs id A E N OK. open_world w.
    destruct specs as [|index specs]; [congruence|].
    destruct (creating_all_succeed coll h specs drv usr (S n) id
                (tr ++ [EGetCollection coll (VObj [("w", VNum 1); ("strict", VBool true)])]
                    ++ [ensure_request h index])) as [w' [C [_ I]]].
    + intros i Hi. apply OK. simpl. lia.
    + exists w'. split; [|exact I].
      eapply completes_step; [|exact C]. now apply ensureIndexes_starts.
Qed.

Lemma other_operations_preserve_instance_witness :
  collection (run 3 (exec (perform (Remove (VObj [])) (VFun (FUser 0))) indexing_world)) =
    collection indexing_world /\
  indexes (run 3 (exec (perform (Remove (VObj [])) (VFun (FUser 0))) indexing_world)) =
    indexes indexing_world.
Proof.
  refine (proj1 (other_operations_preserve_instance indexing_world)
                (Remove (VObj [])) (VFun (FUser 0)) 3 _ _ _).
  - split; constructor.
  - reflexivity.
  - reflexivity.
Defined.


(** ** Optional arguments *)

(** X20.  A call that leaves out the optional arguments is the call with
    the defaults, and the first function among the arguments is the
    callback: the theorems on calls with all their arguments cover it. *)
Lemma optional_arguments (c u : value) (f : func) (x y : value) :
  find c (VFun f) x y = find c (VObj []) (VObj []) (VFun f) /\
  (forall p, is_function p = false ->
             find c p (VFun f) x = find c p (VObj []) (VFun f)) /\
  findOne c (VFun f) x = findOne c (VObj []) (VFun f) /\
  findOnly c (VFun f) x = findOnly c (VObj []) (VFun f) /\
  aggregate c (VFun f) x = aggregate c (VObj []) (VFun f) /\
  updateOne c u (VFun f) x = updateOne c u (VObj []) (VFun f).
Proof.
  repeat split. intros p F. unfold find. now rewrite F.
Qed.

(** ** Results and errors of the operations *)

(** X1.  find, findOnly, removeOnly and count hand the driver's result to
    the callback as it is, whatever it is: an empty array, null or 0 is a
    result and not an error. *)
Theorem tolerant_operations_pass_result (w : world)
    (h conditions projection options : value) (id : nat) :
  acquired w h ->
  is_function projection = false ->
  is_function options = false ->
  truthy (arg 0 (answer w)) = false ->
  delivers w (find conditions projection options (VFun (FUser id))) id
           [VNull; arg 1 (answer w)] /\
  delivers w (findOnly conditions projection (VFun (FUser id))) id
           [VNull; arg 1 (answer w)] /\
  delivers w (removeOnly conditions (VFun (FUser id))) id
           [VNull; arg 1 (answer w)] /\
  delivers w (count conditions (VFun (FUser id))) id
           [VNull; arg 1 (answer w)].
Proof.
  intros A Hp Ho E. open_world w. repeat split; run_to_end 3.
Qed.

Lemma tolerant_operations_pass_result_witness :
  let w := mkWorld (VStr "users") None
             (fun n => match n with
                       | 0 => [VNull; VColl (VStr "users")]
                       | _ => [VNull; VNum 0]
                       end)
             (fun _ _ _ => None) 0 [] [] [] in
  delivers w (count (VObj []) (VFun (FUser 0))) 0 [VNull; VNum 0].
Proof.
  intro w.
  refine (proj2 (proj2 (proj2 (tolerant_operations_pass_result w (VStr "users")
            (VObj []) (VObj []) (VObj []) 0 _ _ _ _)))).
  - repeat split; reflexivity.
  - reflexivity.
  - reflexivity.
  - reflexivity.
Defined.

(** X2.  When the driver reports a document, findOne, findAndUpdate and
    findAndRemove hand it to the callback as it is, after a null error. *)
Theorem found_document_is_delivered (w : world)
    (h conditions projection upd : value) (id : nat) :
  acquired w h ->
  is_function projection = false ->
  truthy (arg 0 (answer w)) = false ->
  truthy (arg 1 (answer w)) = true ->
  delivers w (findOne conditions projection (VFun (FUser id))) id
           [VNull; arg 1 (answer w)] /\
  delivers w (findAndUpdate conditions upd (VFun (FUser id))) id
           [VNull; arg 1 (answer w)] /\
  delivers w (findAndRemove conditions (VFun (FUser id))) id
           [VNull; arg 1 (answer w)].
Proof.
  intros A Hp E D. open_world w. repeat split; run_to_end 3.
Qed.

Lemma found_document_is_delivered_witness :
  let w := mkWorld (VStr "users") None
             (fun n => match n with
                       | 0 => [VNull; VColl (VStr "users")]
                       | _ => [VNull; VObj [("name", VStr "a")]]
                       end)
             (fun _ _ _ => None) 0 [] [] [] in
  delivers w (findOne (VObj [("name", VStr "a")]) (VObj []) (VFun (FUser 0))) 0
           [VNull; VObj [("name", VStr "a")]].
Proof.
  intro w.
  refine (proj1 (found_document_is_delivered w (VStr "users")
            (VObj [("name", VStr "a")]) (VObj []) VNull 0 _ _ _ _)).
  - repeat split; reflexivity.
  - reflexivity.
  - reflexivity.
  - reflexivity.
Defined.

(** X3.  create and createOne insert with [{w: 1}].  When the driver
    reports a non-empty array of inserted documents, create hands the
    array to the callback and createOne its first element; when it reports
    an empty array, or nothing, both report an error whose message ends
    with the JSON text of what was to be inserted. *)
Theorem create_outcomes (w : world) (h docs : value) (id : nat) :
  acquired w h ->
  truthy (arg 0 (answer w)) = false ->
  (forall callback,
     requests_of (trace (run 1 (exec (create docs callback) w))) =
     requests_of (trace w) ++
       [EGetCollection (collection w) (VObj [("w", VNum 1); ("strict", VBool true)]);
        ERequest (VColl h) m_insert [docs; VObj [("w", VNum 1)]]]) /\
  (forall d ds, arg 1 (answer w) = VArr (d :: ds) ->
     delivers w (create docs (VFun (FUser id))) id [VNull; VArr (d :: ds)] /\
     delivers w (createOne docs (VFun (FUser id))) id [VNull; d]) /\
  (arg 1 (answer w) = VArr [] \/ truthy (arg 1 (answer w)) = false ->
     delivers w (create docs (VFun (FUser id))) id
              [VError (msg_create +++ serialized docs)] /\
     delivers w (createOne docs (VFun (FUser id))) id
              [VError (msg_createOne +++ serialized docs)]).
Proof.
  intros A E. split; [|split].
  - intro callback. open_world w. unfold exec, create. cbn.
    rewrite H0, H1. cbn. rewrite !requests_of_app. cbn. now rewrite <- app_assoc.
  - intros d ds R. open_world w. split; run_to_end 3.
  - intros [R|R]; open_world w; split; run_to_end 3.
Qed.

Lemma create_outcomes_witness :
  let w := mkWorld (VStr "users") None
             (fun n => match n with
                       | 0 => [VNull; VColl (VStr "users")]
                       | _ => [VNull; VArr [VObj [("_id", VNum 7); ("name", VStr "a")]]]
                       end)
             (fun _ _ _ => None) 0 [] [] [] in
  delivers w (createOne (VObj [("name", VStr "a")]) (VFun (FUser 0))) 0
           [VNull; VObj [("_id", VNum 7); ("name", VStr "a")]].
Proof.
  intro w.
  refine (proj2 (proj1 (proj2 (create_outcomes w (VStr "users")
            (VObj [("name", VStr "a")]) 0 _ _))
            (VObj [("_id", VNum 7); ("name", VStr "a")]) [] _)).
  - repeat split; reflexivity.
  - reflexivity.
  - reflexivity.
Defined.

(** X4.  When the driver completes the operation's request with an error,
    every operation but aggregate calls the callback once with that error
    and nothing else, whatever else the driver reported with it; aggregate,
    which gives the driver the caller's callback, lets the whole reply
    through. *)
Theorem driver_error_is_propagated (w : world) (h : value) (o : operation) (id : nat) :
  acquired w h ->
  full_form o = true ->
  truthy (arg 0 (answer w)) = true ->
  delivers w (perform o (VFun (FUser id))) id
           (if hands_over_callback o then answer w else [arg 0 (answer w)]).
Proof.
  intros A F E. open_world w. destruct o; use_full_form F; run_to_end 3.
Qed.

Lemma driver_error_is_propagated_witness :
  let w := mkWorld (VStr "users") None
             (fun n => match n with
                       | 0 => [VNull; VColl (VStr "users")]
                       | _ => [VStr "socket closed"; VNum 5]
                       end)
             (fun _ _ _ => None) 0 [] [] [] in
  delivers w (perform (RemoveOnly (VObj [])) (VFun (FUser 0))) 0 [VStr "socket closed"].
Proof.
  intro w.
  refine (driver_error_is_propagated w (VStr "users") (RemoveOnly (VObj [])) 0 _ _ _).
  - repeat split; reflexivity.
  - reflexivity.
  - reflexivity.
Defined.

Lemma acquisition_failure_aborts_witness :
  let w := mkWorld (VStr "users") None (fun _ => [VStr "no such collection"])
                   (fun _ _ _ => None) 0 [] [] [] in
  exists w',
    completes (exec (perform (Count (VObj [])) (VFun (FUser 0))) w) w' /\
    (calls_of 0 (trace w') = calls_of 0 (trace w) ++ [[arg 0 (driver w (issued w))]] /\
     requests_of (trace w') =
       requests_of (trace w) ++
       [EGetCollection (collection w) (VObj [("w", VNum 1); ("strict", VBool true)])]).
Proof.
  intro w.
  refine (acquisition_failure_aborts (Count (VObj [])) 0 w _ _ _).
  - split; reflexivity.
  - reflexivity.
  - reflexivity.
Defined.

Lemma wrapped_operations_shield_driver_witness :
  exists w',
    completes (exec (perform (FindOne (VObj []) (VObj [])) (VFun (FUser 0)))
                    throwing_world) w' /\
    filter is_driver_saw (trace w') = filter is_driver_saw (trace throwing_world).
Proof.
  refine (wrapped_operations_shield_driver (FindOne (VObj []) (VObj [])) 0
            throwing_world _ _ _ _).
  - split; reflexivity.
  - right. exists (VStr "users"). reflexivity.
  - reflexivity.
  - reflexivity.
Defined.

(** ** Requests *)

Ltac close_requests :=
  intros;
  repeat match goal with
         | H : arg _ _ = VColl _ |- _ => rewrite H
         end;
  first [ reflexivity | congruence ].

(** X6.  An operation makes no request but the strict collection request
    and, when that one is answered without an error, one request on the
    handle it got: the request of the operation, once, whatever the driver
    answers to it.  Nothing is retried, and nothing follows an error. *)
Theorem operation_request_budget (w : world) (o : operation) (id : nat) :
  idle w -> acquisition_answered w -> full_form o = true ->
  exists w',
    completes (exec (perform o (VFun (FUser id))) w) w' /\
    requests_as_usual o w w'.
Proof.
  intros I A F. unfold requests_as_usual. open_world w.
  destruct o; use_full_form F; destruct A as [A|[h A]]; run_to_end 3;
    split; close_requests.
Qed.

Lemma operation_request_budget_witness :
  exists w',
    completes (exec (perform (Count (VObj [])) (VFun (FUser 0))) one_document_world) w' /\
    requests_as_usual (Count (VObj [])) one_document_world w'.
Proof.
  refine (operation_request_budget one_document_world (Count (VObj [])) 0 _ _ _).
  - split; reflexivity.
  - right. exists (VStr "users"). reflexivity.
  - reflexivity.
Defined.

Example count_requests :
  forall w',
    requests_as_usual (Count (VObj [])) one_document_world w' ->
    requests_of (trace w') =
    [EGetCollection (VStr "users") (VObj [("w", VNum 1); ("strict", VBool true)]);
     ERequest (VColl (VStr "users")) m_count [VObj []]].
Proof. intros w' [_ R]. apply R. reflexivity. Qed.

(** X7.  create, createOne, update, findAndUpdate, remove, removeOnly and
    findAndRemove ask the driver for an acknowledged write: the options
    object, last argument of their request, has [w] equal to 1. *)
Theorem writes_are_acknowledged (w : world) (h : value) (o : operation)
    (callback : value) :
  acquired w h -> fixed_write o = true ->
  exists m args options,
    requests_of (trace (run 1 (exec (perform o callback) w))) =
      requests_of (trace w) ++
      [EGetCollection (collection w) (VObj [("w", VNum 1); ("strict", VBool true)]);
       ERequest (VColl h) m (args ++ [VObj options])] /\
    get_field "w" options = Some (VNum 1).
Proof.
  intros A F. open_world w.
  destruct o; try discriminate F; unfold exec, perform, create, createOne, update,
    findAndUpdate, remove, removeOnly, findAndRemove; cbn; rewrite H0, H1; cbn;
    rewrite !requests_of_app; cbn; rewrite <- app_assoc.
  - exists m_insert, [docs]. eexists. split; reflexivity.
  - exists m_insert, [doc]. eexists. split; reflexivity.
  - exists m_update, [conditions; upd]. eexists. split; reflexivity.
  - exists m_findAndModify, [conditions; VArr []; upd]. eexists. split; reflexivity.
  - exists m_remove, [conditions]. eexists. split; reflexivity.
  - exists m_remove, [conditions]. eexists. split; reflexivity.
  - exists m_findAndRemove, [conditions; VArr []]. eexists. split; reflexivity.
Qed.

Lemma writes_are_acknowledged_witness :
  exists m args options,
    requests_of (trace (run 1 (exec (perform (Remove (VObj [])) VNull) one_document_world))) =
      requests_of (trace one_document_world) ++
      [EGetCollection (collection one_document_world)
                      (VObj [("w", VNum 1); ("strict", VBool true)]);
       ERequest (VColl (VStr "users")) m (args ++ [VObj options])] /\
    get_field "w" options = Some (VNum 1).
Proof.
  refine (writes_are_acknowledged one_document_world (VStr "users")
            (Remove (VObj [])) VNull _ _).
  - repeat split; reflexivity.
  - reflexivity.
Defined.

(** ** Callbacks that are not functions *)

(** X9.  An operation that wraps its completion callback does not look at
    the caller's callback when it is called.  When the callback is not a
    function, the call returns normally, the driver receives the requests
    it receives with a function, and the TypeError of calling the callback
    surfaces once, as an uncaught error, after the driver has answered;
    nothing is thrown into the driver. *)
Theorem missing_callback_is_uncaught (w : world) (o : operation) (callback : value) :
  idle w -> acquisition_answered w -> full_form o = true ->
  wraps_callback o = true ->
  is_function callback = false ->
  fst (perform o callback w) = Ret tt /\
  exists w',
    completes (exec (perform o callback) w) w' /\
    filter is_uncaught (trace w') =
      filter is_uncaught (trace w) ++ [EUncaught TypeError] /\
    filter is_driver_saw (trace w') = filter is_driver_saw (trace w) /\
    requests_as_usual o w w'.
Proof.
  intros I A F W C. unfold requests_as_usual. open_world w. split.
  - destruct o; try discriminate W; use_full_form F;
      unfold perform, find, findOne, findOnly, updateOne;
      repeat match goal with
             | H : is_function _ = false |- _ => rewrite H
             end; reflexivity.
  - destruct callback; try discriminate C;
      (destruct o; try discriminate W; use_full_form F; destruct A as [A|[h A]];
       run_to_end 4; repeat split; first [reflexivity | close_requests]).
Qed.

Lemma missing_callback_is_uncaught_witness :
  fst (perform (FindOne (VObj []) (VObj [])) VUndefined one_document_world) = Ret tt /\
  exists w',
    completes (exec (perform (FindOne (VObj []) (VObj [])) VUndefined) one_document_world) w' /\
    filter is_uncaught (trace w') =
      filter is_uncaught (trace one_document_world) ++ [EUncaught TypeError] /\
    filter is_driver_saw (trace w') = filter is_driver_saw (trace one_document_world) /\
    requests_as_usual (FindOne (VObj []) (VObj [])) one_document_world w'.
Proof.
  refine (missing_callback_is_uncaught one_document_world
            (FindOne (VObj []) (VObj [])) VUndefined _ _ _ _ _).
  - split; reflexivity.
  - right. exists (VStr "users"). reflexivity.
  - reflexivity.
  - reflexivity.
  - reflexivity.
Defined.

(** ** tick on tick *)

(** X10.  Wrapping twice is wrapping once: the inner wrapper has caught
    the exception and scheduled its re-throw, the outer one has nothing to
    catch, and the exception is re-thrown once. *)
Theorem tick_of_tick (f : func) :
  exists g,
    tick (tick (VFun f)) = VFun g /\
    forall this args w, apply g this args w = apply (FTick f) this args w.
Proof.
  exists (FTick (FTick f)). split; [reflexivity|].
  intros this args w. cbn. unfold try_catch.
  destruct (apply f this args w) as [[[]|e] w']; reflexivity.
Qed.

(** ** find of lib/index.js *)

(** X11.  The find of lib/index.js asks for the collection with [{w: 1}],
    sends the driver the conditions alone, and hands the callback the
    driver's error alone or, after null, the driver's result as it is. *)
Theorem legacy_find_outcomes (w : world) (h conditions : value) (id : nat) :
  acquired w h ->
  (forall callback,
     requests_of (trace (run 1 (exec (legacy_find conditions callback) w))) =
     requests_of (trace w) ++
       [EGetCollection (collection w) (VObj [("w", VNum 1)]);
        ERequest (VColl h) m_find [conditions]]) /\
  (truthy (arg 0 (answer w)) = false ->
     delivers w (legacy_find conditions (VFun (FUser id))) id
              [VNull; arg 1 (answer w)]) /\
  (truthy (arg 0 (answer w)) = true ->
     delivers w (legacy_find conditions (VFun (FUser id))) id [arg 0 (answer w)]).
Proof.
  intro A. split; [|split].
  - intro callback. open_world w. unfold exec, legacy_find. cbn.
    destruct callback; cbn; rewrite ?H0, ?H1; cbn;
      rewrite !requests_of_app; cbn; now rewrite <- ?app_assoc, ?app_nil_r.
  - intro E. open_world w. run_to_end 3.
  - intro E. open_world w. run_to_end 3.
Qed.

Lemma legacy_find_outcomes_witness :
  delivers one_document_world (legacy_find (VObj []) (VFun (FUser 0))) 0
           [VNull; VNum 1].
Proof.
  refine (proj1 (proj2 (legacy_find_outcomes one_document_world (VStr "users")
            (VObj []) 0 _)) _).
  - repeat split; reflexivity.
  - reflexivity.
Defined.

(** X12.  Nothing in lib/index.js wraps a callback: whatever the driver
    answers, collection or error, an exception the caller's callback throws
    goes into the driver's frames, and none is re-thrown later. *)
Theorem legacy_find_throws_into_driver (w : world) (conditions e : value) (id : nat) :
  idle w -> acquisition_answered w ->
  (forall this args, user w id this args = Some e) ->
  exists w',
    completes (exec (legacy_find conditions (VFun (FUser id))) w) w' /\
    filter is_driver_saw (trace w') = filter is_driver_saw (trace w) ++ [EDriverSaw e] /\
    filter is_uncaught (trace w') = filter is_uncaught (trace w).
Proof.
  intros I A U. open_world w.
  remember (run 3 (exec (legacy_find conditions (VFun (FUser id)))
                        (mkWorld coll ix drv usr n [] [] tr))) as w' eqn:R.
  apply (completes_intro 3 _ w' _ R).
  unfold_operations_in R. destruct A as [A|[h A]]; branch_in R;
    repeat match goal with
           | H : usr id _ _ = _ |- _ => rewrite U in H; inversion H; clear H
           end;
    subst; cbn; (split; [reflexivity|]); split; close_trace.
Qed.

Lemma legacy_find_throws_into_driver_witness :
  exists w',
    completes (exec (legacy_find (VObj []) (VFun (FUser 0))) throwing_world) w' /\
    filter is_driver_saw (trace w') =
      filter is_driver_saw (trace throwing_world) ++ [EDriverSaw (VStr "boom")] /\
    filter is_uncaught (trace w') = filter is_uncaught (trace throwing_world).
Proof.
  refine (legacy_find_throws_into_driver throwing_world (VObj []) (VStr "boom") 0 _ _ _).
  - split; reflexivity.
  - right. exists (VStr "users"). reflexivity.
  - reflexivity.
Defined.

(** ** More on ensureIndexes *)

Lemma turn_None_idle (w : world) : turn w = None -> idle w.
Proof.
  destruct w as [c ix d u n fl tk tr]. unfold turn, idle. simpl.
  destruct tk as [|[f a] tk]; [|discriminate].
  destruct fl as [|[cb r] fl]; [auto|]. destruct cb; discriminate.
Qed.

Lemma ensureIndexes_empty_completes c ix d u n id tr :
  ix = None \/ ix = Some [] ->
  exists w',
    completes (exec (ensureIndexes (VFun (FUser id))) (mkWorld c ix d u n [] [] tr)) w' /\
    trace w' = tr ++ [EInvoke id VUndefined []] ++ uncaught (u id VUndefined []).
Proof.
  intro E. rewrite (ensureIndexes_nothing_declared _ _ _ _ _ _ _ E).
  destruct (u id VUndefined []) as [e|] eqn:U; eexists; (split;
    [ eapply completes_step;
      [ cbn; rewrite U; reflexivity | apply completes_now; reflexivity ]
    | cbn; now rewrite <- ?app_assoc ]).
Qed.

(** X13.  When the collection cannot be acquired, ensureIndexes requests
    no index, hands the driver's error to the callback, and leaves the
    declarations as they were. *)
Theorem ensureIndexes_acquisition_failure (w : world) (specs : list index_spec)
    (id : nat) :
  idle w -> indexes w = Some specs -> specs <> [] ->
  truthy (arg 0 (driver w (issued w))) = true ->
  exists w',
    completes (exec (ensureIndexes (VFun (FUser id))) w) w' /\
    trace w' =
      trace w ++
      [EGetCollection (collection w) (VObj [("w", VNum 1); ("strict", VBool true)]);
       EInvoke id VUndefined [arg 0 (driver w (issued w))]] ++
      uncaught (user w id VUndefined [arg 0 (driver w (issued w))]) /\
    indexes w' = Some specs.
Proof.
  intros I E N F. open_world w. destruct specs as [|index specs]; [congruence|].
  destruct (reported_completes coll (Some (index :: specs)) drv usr (S n) id
              (tr ++ [EGetCollection coll (VObj [("w", VNum 1); ("strict", VBool true)])])
              [arg 0 (drv n)]) as [w' [C [T X]]].
  exists w'. split; [|split; [|exact X]].
  - eapply completes_step; [|exact C]. now apply ensureIndexes_acquisition_fails.
  - rewrite T. now rewrite <- app_assoc.
Qed.

Lemma ensureIndexes_acquisition_failure_witness :
  let w := mkWorld (VStr "users") (Some two_indexes) (fun _ => [VStr "no such collection"])
                   (fun _ _ _ => None) 0 [] [] [] in
  exists w',
    completes (exec (ensureIndexes (VFun (FUser 0))) w) w' /\
    trace w' =
      trace w ++
      [EGetCollection (collection w) (VObj [("w", VNum 1); ("strict", VBool true)]);
       EInvoke 0 VUndefined [arg 0 (driver w (issued w))]] ++
      uncaught (user w 0 VUndefined [arg 0 (driver w (issued w))]) /\
    indexes w' = Some two_indexes.
Proof.
  intro w.
  refine (ensureIndexes_acquisition_failure w two_indexes 0 _ _ _ _).
  - split; reflexivity.
  - reflexivity.
  - discriminate.
  - reflexivity.
Defined.

(** X14.  When the creation of declaration [j] (counted from 0) is the
    first to fail, ensureIndexes has removed from [this.indexes] the
    declarations up to that one, the failed one included: what is left is
    what follows it. *)
Theorem ensureIndexes_failure_leaves_rest (w : world) (h : value)
    (specs : list index_spec) (id j : nat) :
  acquired w h -> indexes w = Some specs ->
  j < List.length specs ->
  (forall i, i < j -> truthy (arg 0 (driver w (S (issued w) + i))) = false) ->
  truthy (arg 0 (driver w (S (issued w) + j))) = true ->
  exists w',
    completes (exec (ensureIndexes (VFun (FUser id))) w) w' /\
    indexes w' = Some (skipn (S j) specs).
Proof.
  intros A E L OK KO. open_world w.
  destruct specs as [|index specs]; [simpl in L; lia|].
  destruct (creating_fails_at coll h specs drv usr (S n) id
              (tr ++ [EGetCollection coll (VObj [("w", VNum 1); ("strict", VBool true)])]
                  ++ [ensure_request h index]) j) as [w' [C [_ X]]].
  - simpl in L. lia.
  - exact OK.
  - exact KO.
  - exists w'. split; [|exact X].
    eapply completes_step; [|exact C]. now apply ensureIndexes_starts.
Qed.

Lemma ensureIndexes_failure_leaves_rest_witness :
  let w := mkWorld (VStr "users") (Some two_indexes)
             (fun n => match n with
                       | 0 => [VNull; VColl (VStr "users")]
                       | _ => [VStr "duplicate key"]
                       end)
             (fun _ _ _ => None) 0 [] [] [] in
  exists w',
    completes (exec (ensureIndexes (VFun (FUser 0))) w) w' /\
    indexes w' = Some (skipn 1 two_indexes).
Proof.
  intro w.
  refine (ensureIndexes_failure_leaves_rest w (VStr "users") two_indexes 0 0 _ _ _ _ _).
  - repeat split; reflexivity.
  - reflexivity.
  - simpl. lia.
  - intros i Hi. lia.
  - reflexivity.
Defined.

(** X15.  ensureIndexes is not repeatable: after a run in which every
    creation succeeded, a second call finds no declaration; it sends the
    driver nothing and calls its callback, with no argument. *)
Theorem ensureIndexes_second_run (w : world) (h : value) (specs : list index_spec)
    (id id2 : nat) :
  acquired w h -> indexes w = Some specs -> specs <> [] ->
  (forall i, i < List.length specs ->
             truthy (arg 0 (driver w (S (issued w) + i))) = false) ->
  exists w1,
    completes (exec (ensureIndexes (VFun (FUser id))) w) w1 /\
    exists w2,
      completes (exec (ensureIndexes (VFun (FUser id2))) w1) w2 /\
      requests_of (trace w2) = requests_of (trace w1) /\
      calls_of id2 (trace w2) = calls_of id2 (trace w1) ++ [[]].
Proof.
  intros A E N OK. open_world w. destruct specs as [|index specs]; [congruence|].
  destruct (creating_all_succeed coll h specs drv usr (S n) id
              (tr ++ [EGetCollection coll (VObj [("w", VNum 1); ("strict", VBool true)])]
                  ++ [ensure_request h index])) as [w1 [C [_ X]]].
  - intros i Hi. apply OK. simpl. lia.
  - exists w1. split.
    + eapply completes_step; [|exact C]. now apply ensureIndexes_starts.
    + destruct C as [fuel [_ Q]]. apply turn_None_idle in Q.
      destruct w1 as [c1 ix1 d1 u1 n1 fl1 tk1 tr1]. destruct Q as [Q1 Q2].
      simpl in X, Q1, Q2. subst.
      destruct (ensureIndexes_empty_completes c1 (Some []) d1 u1 n1 id2 tr1)
        as [w2 [C2 T2]]; [now right|].
      exists w2. split; [exact C2|]. rewrite T2. simpl trace.
      rewrite !requests_of_app, !calls_of_app. cbn. rewrite Nat.eqb_refl.
      destruct (u1 id2 VUndefined []); cbn; now rewrite !app_nil_r.
Qed.

Lemma ensureIndexes_second_run_witness :
  exists w1,
    completes (exec (ensureIndexes (VFun (FUser 0))) indexing_world) w1 /\
    exists w2,
      completes (exec (ensureIndexes (VFun (FUser 1))) w1) w2 /\
      requests_of (trace w2) = requests_of (trace w1) /\
      calls_of 1 (trace w2) = calls_of 1 (trace w1) ++ [[]].
Proof.
  refine (ensureIndexes_second_run indexing_world (VStr "users") two_indexes 0 1 _ _ _ _).
  - repeat split; reflexivity.
  - reflexivity.
  - discriminate.
  - intros i Hi. reflexivity.
Defined.

Lemma creating_for_turn_failure cb c h specs d u k tr :
  truthy cb = false -> truthy (arg 0 (d k)) = true ->
  turn (creating_for cb c h specs d u k tr) =
  Some (mkWorld c (Some specs) d u (S k) [] [] tr).
Proof.
  intros Q E. unfold creating_for. cbn. rewrite E. cbn.
  unfold done_with. now rewrite Q.
Qed.

Lemma creating_for_turn_last cb c h d u k tr :
  truthy cb = false -> truthy (arg 0 (d k)) = false ->
  turn (creating_for cb c h [] d u k tr) =
  Some (mkWorld c (Some []) d u (S k) [] [] tr).
Proof.
  intros Q E. unfold creating_for. cbn. rewrite E. cbn.
  unfold create_with, bind, shift, done_with. cbn. now rewrite Q.
Qed.

Lemma creating_for_turn_next cb c h index specs d u k tr :
  truthy (arg 0 (d k)) = false ->
  turn (creating_for cb c h (index :: specs) d u k tr) =
  Some (creating_for cb c h specs d u (S k) (tr ++ [ensure_request h index])).
Proof.
  intro E. destruct index as [keys options]. unfold creating_for. cbn.
  rewrite E. reflexivity.
Qed.

(** Without a callback the loop only makes requests. *)
Lemma creating_for_silent cb c h specs d u k tr :
  truthy cb = false ->
  exists w' m,
    completes (creating_for cb c h specs d u k tr) w' /\
    trace w' = tr ++ map (ensure_request h) (firstn m specs).
Proof.
  intro Q. revert k tr. induction specs as [|index specs IH]; intros k tr;
    destruct (truthy (arg 0 (d k))) eqn:E.
  - eexists. exists 0. split.
    + eapply completes_step; [now apply creating_for_turn_failure|].
      apply completes_now. reflexivity.
    + cbn. now rewrite app_nil_r.
  - eexists. exists 0. split.
    + eapply completes_step; [now apply creating_for_turn_last|].
      apply completes_now. reflexivity.
    + cbn. now rewrite app_nil_r.
  - eexists. exists 0. split.
    + eapply completes_step; [now apply creating_for_turn_failure|].
      apply completes_now. reflexivity.
    + cbn. now rewrite app_nil_r.
  - destruct (IH (S k) (tr ++ [ensure_request h index])) as [w' [m [C T]]].
    exists w', (S m). split.
    + eapply completes_step; [now apply creating_for_turn_next|]. exact C.
    + rewrite T. simpl. now rewrite <- app_assoc.
Qed.

(** X16.  ensureIndexes called without a callback: with no declaration it
    does nothing at all; otherwise it asks for the collection and requests
    the declarations in order until one fails, and that is all: the error
    of a failed acquisition or creation is dropped, nothing is called and
    nothing is thrown. *)
Theorem ensureIndexes_without_callback (w : world) (callback : value) :
  idle w -> truthy callback = false ->
  (indexes w = None \/ indexes w = Some [] ->
     exec (ensureIndexes callback) w = w) /\
  (forall specs, indexes w = Some specs -> specs <> [] -> acquisition_answered w ->
     exists w' h m,
       completes (exec (ensureIndexes callback) w) w' /\
       trace w' =
         trace w ++
         EGetCollection (collection w) (VObj [("w", VNum 1); ("strict", VBool true)])
         :: map (ensure_request h) (firstn m specs)).
Proof.
  intros I Q. split.
  - intros [E|E]; open_world w; unfold exec, ensureIndexes; cbn; now rewrite Q.
  - intros specs E N A. open_world w. destruct specs as [|[keys options] specs]; [congruence|].
    destruct (truthy (arg 0 (drv n))) eqn:F.
    + eexists. exists VNull, 0. split.
      * eapply completes_step.
        { unfold exec, ensureIndexes. cbn. rewrite F. cbn.
          unfold done_with. rewrite Q. reflexivity. }
        apply completes_now. reflexivity.
      * reflexivity.
    + destruct A as [A|[h A]]; [discriminate|].
      destruct (creating_for_silent callback coll h specs drv usr (S n)
                  (tr ++ [EGetCollection coll (VObj [("w", VNum 1); ("strict", VBool true)])]
                      ++ [ensure_request h (keys, options)]) Q) as [w' [m [C T]]].
      exists w', h, (S m). split.
      * eapply completes_step; [|exact C].
        unfold exec, ensureIndexes. cbn. rewrite F, A. cbn.
        unfold creating_for. now rewrite <- app_assoc.
      * rewrite T. simpl. now rewrite <- !app_assoc.
Qed.

Lemma ensureIndexes_without_callback_witness :
  exists w' h m,
    completes (exec (ensureIndexes VUndefined) indexing_world) w' /\
    trace w' =
      trace indexing_world ++
      EGetCollection (collection indexing_world)
                     (VObj [("w", VNum 1); ("strict", VBool true)])
      :: map (ensure_request h) (firstn m two_indexes).
Proof.
  refine (proj2 (ensureIndexes_without_callback indexing_world VUndefined _ _)
                two_indexes _ _ _).
  - split; reflexivity.
  - reflexivity.
  - reflexivity.
  - discriminate.
  - right. exists (VStr "users"). reflexivity.
Defined.

(** ** toObjectID *)

Section ToObjectID_facts.

Variable item : Type.
Variable instanceof_ObjectID : item -> bool.
Variable ObjectID : item -> item + value.

(** What [ObjectID(x)] returns is an ObjectID. *)
Hypothesis ObjectID_returns_instance :
  forall x y, ObjectID x = inl y -> instanceof_ObjectID y = true.

Let one := to_one item instanceof_ObjectID ObjectID.
Let convert := convert_array item instanceof_ObjectID ObjectID.
Let call_toObjectID := toObjectID item instanceof_ObjectID ObjectID.

Lemma to_one_instance (x y : item) :
  one x = inl y -> instanceof_ObjectID y = true.
Proof.
  unfold one, to_one. destruct (instanceof_ObjectID x) eqn:I.
  - intro E. injection E as <-. exact I.
  - apply ObjectID_returns_instance.
Qed.

Lemma to_one_of_instance (x : item) :
  instanceof_ObjectID x = true -> one x = inl x.
Proof. intro I. unfold one, to_one. now rewrite I. Qed.

Lemma convert_array_length (xs : list item) :
  List.length (fst (convert xs)) = List.length xs.
Proof.
  induction xs as [|x xs IH]; simpl; [reflexivity|].
  fold one. destruct (one x); [|reflexivity].
  fold convert. destruct (convert xs). simpl in *. now rewrite IH.
Qed.

Lemma convert_array_done (xs ys : list item) :
  convert xs = (ys, None) ->
  Forall (fun y => instanceof_ObjectID y = true) ys /\
  forall i x, nth_error xs i = Some x -> instanceof_ObjectID x = true ->
              nth_error ys i = Some x.
Proof.
  revert ys. induction xs as [|x xs IH]; simpl; intros ys E.
  - injection E as <-. split; [constructor|]. intros [|i] x; discriminate.
  - fold one in E. destruct (one x) as [y|e] eqn:O; [|discriminate].
    fold convert in E. destruct (convert xs) as [zs thrown]. injection E as <- ->.
    destruct (IH zs eq_refl) as [F N]. split.
    + constructor; [now apply (to_one_instance x)|exact F].
    + intros [|i] x' H I; simpl in *.
      * injection H as <-. rewrite (to_one_of_instance _ I) in O. congruence.
      * now apply N.
Qed.

Lemma convert_array_all (xs : list item) :
  (forall x, In x xs -> exists y, one x = inl y) ->
  snd (convert xs) = None.
Proof.
  induction xs as [|x xs IH]; simpl; intro A; [reflexivity|].
  fold one. destruct (A x (or_introl eq_refl)) as [y ->].
  fold convert. destruct (convert xs) as [zs thrown] eqn:C. simpl in *.
  apply IH. intros x' I. apply A. now right.
Qed.

Lemma convert_array_of_instances (xs : list item) :
  Forall (fun y => instanceof_ObjectID y = true) xs -> convert xs = (xs, None).
Proof.
  induction 1 as [|x xs I F IH]; simpl; [reflexivity|].
  fold one. rewrite (to_one_of_instance _ I). fold convert. now rewrite IH.
Qed.

(** X17.  Given an array whose elements are ObjectIDs or are accepted by
    the ObjectID constructor, toObjectID returns the array, converted in
    place: it has the same length, every element is an ObjectID, and the
    elements that were ObjectIDs are the same, at the same place. *)
Theorem toObjectID_converts_array (xs : list item) :
  (forall x, In x xs -> exists y, one x = inl y) ->
  exists ys,
    call_toObjectID (Array item xs) = (inl (Array item ys), Array item ys) /\
    List.length ys = List.length xs /\
    Forall (fun y => instanceof_ObjectID y = true) ys /\
    forall i x, nth_error xs i = Some x -> instanceof_ObjectID x = true ->
                nth_error ys i = Some x.
Proof.
  intro A. pose proof (convert_array_all xs A) as S.
  pose proof (convert_array_length xs) as L.
  destruct (convert xs) as [ys thrown] eqn:C. simpl in S, L. subst thrown.
  exists ys. split; [|split; [exact L|now apply convert_array_done]].
  unfold call_toObjectID, toObjectID. fold convert. now rewrite C.
Qed.

(** X18.  toObjectID is idempotent: applied to what it returned, it
    returns it again and changes nothing. *)
Theorem toObjectID_idempotent (data returned left : oid_argument item) :
  call_toObjectID data = (inl returned, left) ->
  call_toObjectID returned = (inl returned, returned).
Proof.
  unfold call_toObjectID, toObjectID. destruct data as [x|xs].
  - fold one. destruct (one x) as [y|e] eqn:O; intro E; [|discriminate].
    injection E as <- _. fold one.
    now rewrite (to_one_of_instance _ (to_one_instance _ _ O)).
  - fold convert. destruct (convert xs) as [ys [e|]] eqn:C; intro E; [discriminate|].
    injection E as <- _. fold convert.
    destruct (convert_array_done _ _ C) as [F _].
    now rewrite (convert_array_of_instances _ F).
Qed.

(** X19.  When the ObjectID constructor rejects an element, toObjectID
    throws what the constructor threw and leaves the array half converted:
    the elements before the rejected one are ObjectIDs now, the rejected
    one and those after it are as they were. *)
Theorem toObjectID_fails_midway (before after : list item) (x : item) (e : value) :
  (forall p, In p before -> exists y, one p = inl y) ->
  one x = inr e ->
  exists converted,
    call_toObjectID (Array item (before ++ x :: after)) =
      (inr e, Array item (converted ++ x :: after)) /\
    List.length converted = List.length before /\
    Forall (fun y => instanceof_ObjectID y = true) converted.
Proof.
  intros A R.
  assert (C : exists converted,
             convert (before ++ x :: after) = (converted ++ x :: after, Some e) /\
             List.length converted = List.length before /\
             Forall (fun y => instanceof_ObjectID y = true) converted).
  { induction before as [|p before IH]; simpl.
    - exists []. fold one. rewrite R. repeat split. constructor.
    - destruct IH as [converted [C [L F]]]; [intros q I; apply A; now right|].
      destruct (A p (or_introl eq_refl)) as [y O].
      exists (y :: converted). fold one. rewrite O. fold convert. rewrite C.
      repeat split; simpl; [now rewrite L|].
      constructor; [now apply (to_one_instance p)|exact F]. }
  destruct C as [converted [C [L F]]]. exists converted.
  split; [|split; assumption].
  unfold call_toObjectID, toObjectID. fold convert. now rewrite C.
Qed.

End ToObjectID_facts.

Lemma sample_ObjectID_returns_instance (x y : nat + string) :
  sample_ObjectID x = inl y -> sample_instanceof y = true.
Proof.
  destruct x as [n|s]; simpl.
  - intro E. now injection E as <-.
  - destruct (String.eqb s ""); [discriminate|]. intro E. now injection E as <-.
Qed.

Lemma toObjectID_converts_array_witness :
  exists ys,
    toObjectID _ sample_instanceof sample_ObjectID (Array _ [inl 7; inr "abc"]) =
      (inl (Array _ ys), Array _ ys) /\
    List.length ys = 2 /\
    Forall (fun y => sample_instanceof y = true) ys /\
    forall i x, nth_error [inl 7; inr "abc"] i = Some x -> sample_instanceof x = true ->
                nth_error ys i = Some x.
Proof.
  refine (toObjectID_converts_array _ sample_instanceof sample_ObjectID
            sample_ObjectID_returns_instance [inl 7; inr "abc"] _).
  intros x [<-|[<-|[]]]; eexists; reflexivity.
Defined.

Lemma toObjectID_idempotent_witness :
  toObjectID _ sample_instanceof sample_ObjectID (Array _ [inl 7; inl 3]) =
  (inl (Array _ [inl 7; inl 3]), Array _ [inl 7; inl 3]).
Proof.
  refine (toObjectID_idempotent _ sample_instanceof sample_ObjectID
            sample_ObjectID_returns_instance
            (Array _ [inl 7; inr "abc"]) (Array _ [inl 7; inl 3])
            (Array _ [inl 7; inl 3]) _).
  reflexivity.
Defined.

Lemma toObjectID_fails_midway_witness :
  exists converted,
    toObjectID _ sample_instanceof sample_ObjectID
               (Array _ ([inr "abc"] ++ inr "" :: [inr "de"])) =
      (inr (VError "invalid id"), Array _ (converted ++ inr "" :: [inr "de"])) /\
    List.length converted = 1 /\
    Forall (fun y => sample_instanceof y = true) converted.
Proof.
  refine (toObjectID_fails_midway _ sample_instanceof sample_ObjectID
            sample_ObjectID_returns_instance [inr "abc"] [inr "de"] (inr "")
            (VError "invalid id") _ _).
  - intros p [<-|[]]. eexists. reflexivity.
  - reflexivity.
Defined.

Lemma optional_arguments_witness :
  find (VObj []) (VObj [("name", VNum 1)]) (VFun (FUser 0)) VUndefined =
  find (VObj []) (VObj [("name", VNum 1)]) (VObj []) (VFun (FUser 0)).
Proof.
  refine (proj1 (proj2 (optional_arguments (VObj []) VNull (FUser 0) VUndefined VUndefined))
                (VObj [("name", VNum 1)]) _).
  reflexivity.
Defined.
